(** * Intelligent Invoice Parser: field extraction and document analysis

    A shallow embedding of [src/ocr_engine.py], [src/parsers.py] and of the
    analysis function of [app.py].

    Python strings are sequences of Unicode code points.  The three regular
    expressions of the engine are kept as syntax trees and run by a
    backtracking matcher with the priorities of Python's [re] module
    (greedy repetition, left alternative first); [re.findall] is the
    left-to-right scan for non-overlapping matches on top of it. *)

From Stdlib Require Import String Ascii Floats.
From Stdlib Require Import List Bool Arith NArith Lia.
Import ListNotations.

(** ** Characters and strings *)

(** A code point. *)
Definition char : Type := N.

(** A Python [str]. *)
Definition str : Type := list char.

(** An ASCII literal as a Python [str]. *)
Definition py (s : string) : str := List.map N_of_ascii (list_ascii_of_string s).

Definition NEWLINE : char := 10%N.
Definition HYPHEN : char := 45%N.
Definition SLASH : char := 47%N.
Definition COMMA : char := 44%N.
Definition DOT : char := 46%N.
Definition UNDERSCORE : char := 95%N.

(** The Unicode character database outside the ASCII range: which code points
    are decimal digits ([Py_UNICODE_ISDECIMAL]), which are alphanumeric without
    being decimal digits (alphabetic, digit or numeric), and which are white
    space ([Py_UNICODE_ISSPACE]).  The ASCII range is written out below. *)
Class UnicodeDB : Type := {
  uni_decimal : char -> bool;
  uni_alnum : char -> bool;
  uni_space : char -> bool
}.

(** A database with the Arabic-Indic digits U+0660..U+0669, the no-break
    space U+00A0 and the Latin-1 letters U+00C0..U+00FF less the two
    operators. *)
Definition sample_db : UnicodeDB :=
  {| uni_decimal := fun c => ((1632 <=? c) && (c <=? 1641))%N;
     uni_alnum := fun c => ((192 <=? c) && (c <=? 255)
                            && negb (c =? 215) && negb (c =? 247))%N;
     uni_space := fun c => (c =? 160)%N |}.

Section Engine.

Context {U : UnicodeDB}.

Definition between (lo hi c : char) : bool := ((lo <=? c) && (c <=? hi))%N.

(** [\d] on a [str] pattern: a Unicode decimal digit. *)
Definition is_decimal (c : char) : bool :=
  if (c <? 128)%N then between 48%N 57%N c else uni_decimal c.

(** [Py_UNICODE_ISALNUM]: alphabetic, decimal, digit or numeric. *)
Definition is_alnum (c : char) : bool :=
  is_decimal c
  || (if (c <? 128)%N then between 65%N 90%N c || between 97%N 122%N c else uni_alnum c).

(** [\w]: alphanumeric or the underscore. *)
Definition is_word (c : char) : bool := is_alnum c || (c =? UNDERSCORE)%N.

(** White space as [str.strip()] sees it: in ASCII, TAB, LF, VT, FF, CR,
    FS, GS, RS, US and the space. *)
Definition is_space (c : char) : bool :=
  if (c <? 128)%N then between 9%N 13%N c || between 28%N 32%N c else uni_space c.

(** ** Patterns *)

(** The fragment of [re] syntax the engine's patterns are written in. *)
Inductive regex : Type :=
| Dec : regex                               (* \d *)
| Chr : char -> regex                       (* a literal character *)
| Cls : list char -> regex                  (* [...] *)
| Bnd : regex                               (* \b *)
| Cat : regex -> regex -> regex             (* r1 r2 *)
| Alt : regex -> regex -> regex             (* r1 | r2 *)
| Rep : regex -> nat -> option nat -> regex (* greedy r{lo,hi}; r* is r{0,} *).

(** A position in the subject text: the characters before it, nearest first,
    and the characters from it on. *)
Record cursor : Type := Cursor { before : str; after : str }.

Definition word_at (o : option char) : bool :=
  match o with Some c => is_word c | None => false end.

(** [\b]: the characters on the two sides differ in being word characters;
    a missing neighbour counts as a non-word character. *)
Definition at_boundary (cu : cursor) : bool :=
  xorb (word_at (List.hd_error (before cu))) (word_at (List.hd_error (after cu))).

(** Consume one character that satisfies [p]. *)
Definition eat (p : char -> bool) (cu : cursor) (k : cursor -> option cursor)
  : option cursor :=
  match after cu with
  | c :: s => if p c then k (Cursor (c :: before cu) s) else None
  | [] => None
  end.

Definition in_class (cs : list char) (c : char) : bool :=
  List.existsb (N.eqb c) cs.

(** [may_repeat n hi]: a further iteration is allowed after [n]. *)
Definition may_repeat (n : nat) (hi : option nat) : bool :=
  match hi with Some h => n <? h | None => true end.

(** The greedy repetition [r{lo,hi}] around the matcher [step] of [r], after
    [n] iterations: first try one more iteration, and stop here when that or
    what follows it fails.  An iteration has to consume input, so the length
    of the remaining text bounds their number. *)
Fixpoint rep_loop (step : cursor -> (cursor -> option cursor) -> option cursor)
    (lo : nat) (hi : option nat) (k : cursor -> option cursor)
    (fuel n : nat) (cu : cursor) : option cursor :=
  let stop := if lo <=? n then k cu else None in
  match fuel with
  | O => stop
  | S fuel' =>
      let more :=
        if may_repeat n hi
        then step cu (fun m =>
               if length (after m) <? length (after cu)
               then rep_loop step lo hi k fuel' (S n) m else None)
        else None in
      match more with
      | Some e => Some e
      | None => stop
      end
  end.

(** The backtracking matcher, in continuation-passing style: [run r cu k]
    is the end of the first match of [r] from [cu], in priority order, that
    the continuation [k] accepts. *)
Fixpoint run (r : regex) (cu : cursor) (k : cursor -> option cursor)
  : option cursor :=
  match r with
  | Dec => eat is_decimal cu k
  | Chr c => eat (N.eqb c) cu k
  | Cls cs => eat (in_class cs) cu k
  | Bnd => if at_boundary cu then k cu else None
  | Cat a b => run a cu (fun m => run b m k)
  | Alt a b =>
      match run a cu k with
      | Some e => Some e
      | None => run b cu k
      end
  | Rep a lo hi => rep_loop (run a) lo hi k (length (after cu)) 0 cu
  end.

(** One match attempt at a position. *)
Definition match_at (r : regex) (cu : cursor) : option cursor := run r cu Some.

(** The text a match consumed, from its start and its end. *)
Definition matched (cu e : cursor) : str :=
  List.firstn (length (after cu) - length (after e)) (after cu).

(** Move one character to the right. *)
Definition advance (cu : cursor) : option cursor :=
  match after cu with
  | c :: s => Some (Cursor (c :: before cu) s)
  | [] => None
  end.

(** [re.findall] for a pattern without capture groups (or with the single
    group around the whole pattern): try a match at the current position;
    on success emit the matched text and go on from its end, otherwise go
    one character to the right.  The patterns of this program never match
    the empty string; for one that does the scan emits it and moves one
    character on. *)
Fixpoint scan (fuel : nat) (r : regex) (cu : cursor) : list str :=
  match fuel with
  | O => []
  | S fuel' =>
      match match_at r cu with
      | Some e =>
          matched cu e ::
          (if length (after e) <? length (after cu)
           then scan fuel' r e
           else match advance cu with
                | Some cu' => scan fuel' r cu'
                | None => []
                end)
      | None =>
          match advance cu with
          | Some cu' => scan fuel' r cu'
          | None => []
          end
      end
  end.

Definition findall (r : regex) (text : str) : list str :=
  scan (S (length text)) r (Cursor [] text).

End Engine.

Infix "@@" := Cat (at level 60, right associativity).

(** [r{n}] and [r*]. *)
Definition exactly (n : nat) (r : regex) : regex := Rep r n (Some n).
Definition star (r : regex) : regex := Rep r 0 None.

(** ** Results of calls that may raise *)

Inductive outcome (A : Type) : Type :=
| Returned : A -> outcome A
| Raised : str -> outcome A.

Arguments Returned {A} _.
Arguments Raised {A} _.

Definition bind {A B : Type} (m : outcome A) (f : A -> outcome B) : outcome B :=
  match m with
  | Returned a => f a
  | Raised e => Raised e
  end.

Notation "x <- m ;; f" := (bind m (fun x => f))
  (at level 61, m at next level, right associativity).

(** [try: body except Exception as e: raise Exception(prefix + str(e))]. *)
Definition reraise {A : Type} (prefix : str) (body : outcome A) : outcome A :=
  match body with
  | Returned a => Returned a
  | Raised e => Raised (prefix ++ e)
  end.

(** Truth value of a Python sequence. *)
Definition truthy {A : Type} (l : list A) : bool :=
  match l with [] => false | _ :: _ => true end.

(** ** src/ocr_engine.py *)

Module OCREngine.

Section WithDB.

Context {U : UnicodeDB}.

(** What [pdfplumber] does with a document: [page.extract_text()] raises,
    or returns [None] or a string; [pdfplumber.open] raises or gives the
    pages. *)
Definition page : Type := outcome (option str).
Definition document : Type := outcome (list page).

(** The loop over [pdf.pages], with the text accumulated so far. *)
Fixpoint read_pages (pages : list page) (text : str) : outcome str :=
  match pages with
  | [] => Returned text
  | p :: rest =>
      page_text <- p ;;
      read_pages rest
        (match page_text with
         | Some t => if truthy t then text ++ t ++ [NEWLINE] else text
         | None => text
         end)
  end.

Definition extract_text_from_pdf (pdfplumber_open : str -> document)
    (file_path : str) : outcome str :=
  reraise (py "Failed to extract text from PDF: ")
    (pages <- pdfplumber_open file_path ;; read_pages pages []).

(** [\d{4}-\d{2}-\d{2}] *)
Definition date_iso : regex :=
  exactly 4 Dec @@ Chr HYPHEN @@ exactly 2 Dec @@ Chr HYPHEN @@ exactly 2 Dec.

(** [\d{2}[/-]\d{2}[/-]\d{2,4}] *)
Definition date_dmy : regex :=
  exactly 2 Dec @@ Cls [SLASH; HYPHEN] @@ exactly 2 Dec @@ Cls [SLASH; HYPHEN]
  @@ Rep Dec 2 (Some 4).

Definition date_patterns : list regex := [date_iso; date_dmy].

(** [dates = []], then [dates.extend(re.findall(pattern, text))] for each
    pattern in turn. *)
Definition extract_dates (text : str) : list str :=
  List.fold_left (fun dates pattern => dates ++ findall pattern text)
    date_patterns [].

(** [\b\d{1,3}(?:,\d{3})*\.\d{2}\b] *)
Definition amount_pattern : regex :=
  Bnd @@ Rep Dec 1 (Some 3) @@ star (Chr COMMA @@ exactly 3 Dec) @@ Chr DOT
  @@ exactly 2 Dec @@ Bnd.

Definition extract_amounts (text : str) : list str :=
  findall amount_pattern text.

(** [str.lstrip()], [str.rstrip()] and [str.strip()] without argument. *)
Fixpoint lstrip (s : str) : str :=
  match s with
  | c :: s' => if is_space c then lstrip s' else s
  | [] => []
  end.

Definition rstrip (s : str) : str := List.rev (lstrip (List.rev s)).

Definition strip (s : str) : str := rstrip (lstrip s).

(** [s.split(sep)] for a one-character separator: the pieces between the
    separators, always at least one piece. *)
Fixpoint split (sep : char) (s : str) : list str :=
  match s with
  | [] => [[]]
  | c :: s' =>
      if (c =? sep)%N then [] :: split sep s'
      else match split sep s' with
           | piece :: pieces => (c :: piece) :: pieces
           | [] => [[c]]
           end
  end.

Definition extract_vendor (text : str) : str :=
  let lines := split NEWLINE (strip text) in
  match lines with
  | first :: _ =>
      let vendor := strip first in
      if 100 <? length vendor
      then List.firstn 100 vendor ++ py "..."
      else vendor
  | [] => py "Unknown Vendor"
  end.

End WithDB.

End OCREngine.

(** ** src/parsers.py *)

Module InvoiceParser.

Import OCREngine.

Record result : Type := {
  document_type : str;
  vendor : str;
  invoice_date : option str;
  total_amount : str;
  detected_amounts : list str;
  detected_dates : list str;
  confidence : float;
  raw_text_length : nat
}.

(** [min(a, b)] of Python: the first argument unless the second is smaller. *)
Definition py_min (a b : float) : float := if PrimFloat.ltb b a then b else a.

Definition _calculate_confidence (dates amounts : list str) : float :=
  let score := 0.5%float in
  let score := if truthy dates then PrimFloat.add score 0.25%float else score in
  let score := if truthy amounts then PrimFloat.add score 0.25%float else score in
  py_min score 1.0%float.

Section WithDB.

Context {U : UnicodeDB}.

(** The body of [parse] after the text has been acquired. *)
Definition build (text : str) : result :=
  let dates := extract_dates text in
  let amounts := extract_amounts text in
  let vendor := extract_vendor text in
  {| document_type := py "invoice";
     vendor := vendor;
     invoice_date := if truthy dates then List.hd_error dates else None;
     total_amount := if truthy amounts then List.last amounts [] else py "0.00";
     detected_amounts := amounts;
     detected_dates := dates;
     confidence := _calculate_confidence dates amounts;
     raw_text_length := length text |}.

Definition parse (pdfplumber_open : str -> document) (file_path : str)
  : outcome result :=
  text <- extract_text_from_pdf pdfplumber_open file_path ;;
  Returned (build text).

End WithDB.

End InvoiceParser.

Module ReceiptParser.

Import OCREngine.

Record result : Type := {
  document_type : str;
  merchant : str;
  purchase_date : option str;
  total : str;
  items_detected : nat;
  confidence : float
}.

Section WithDB.

Context {U : UnicodeDB}.

(** The body of [parse] after the text has been acquired; the literal [0.8]
    is the binary64 number nearest to it, written exactly. *)
Definition build (text : str) : result :=
  let dates := extract_dates text in
  let amounts := extract_amounts text in
  let vendor := extract_vendor text in
  {| document_type := py "receipt";
     merchant := vendor;
     purchase_date := if truthy dates then List.hd_error dates else None;
     total := if truthy amounts then List.last amounts [] else py "0.00";
     items_detected := length amounts;
     confidence := if truthy dates && truthy amounts then 0x1.999999999999ap-1%float else 0.5%float |}.

Definition parse (pdfplumber_open : str -> document) (file_path : str)
  : outcome result :=
  text <- extract_text_from_pdf pdfplumber_open file_path ;;
  Returned (build text).

End WithDB.

End ReceiptParser.

(** ** app.py *)

Module App.

Record data : Type := {
  vendor : str;
  invoice_date : option str;
  total_amount : str
}.

Section WithDB.

Context {U : UnicodeDB}.

(** [(\d{4}-\d{2}-\d{2}|\d{2}[/-]\d{2}[/-]\d{2,4})]: one group around the
    whole pattern, so [re.findall] returns the whole matches. *)
Definition date_pattern : regex := Alt OCREngine.date_iso OCREngine.date_dmy.

Definition analyze_invoice_data (text : str) : data :=
  let dates := findall date_pattern text in
  let amounts := findall OCREngine.amount_pattern text in
  {| vendor := if truthy text
               then List.hd [] (OCREngine.split NEWLINE text)
               else py "Unknown Vendor";
     invoice_date := if truthy dates then List.hd_error dates
                     else Some (py "Not detected");
     total_amount := if truthy amounts then List.last amounts [] else py "0.00" |}.

End WithDB.

(** [None + "\n"] raises a [TypeError]; on a string it is concatenation. *)
Definition add_newline (page_text : option str) : outcome str :=
  match page_text with
  | Some t => Returned (t ++ [NEWLINE])
  | None =>
      Raised (py "unsupported operand type(s) for +: 'NoneType' and 'str'")
  end.

(** The loop [text += page.extract_text() + "\n"] over [pdf.pages]. *)
Fixpoint read_pages (pages : list OCREngine.page) (text : str) : outcome str :=
  match pages with
  | [] => Returned text
  | p :: rest =>
      page_text <- p ;;
      line <- add_newline page_text ;;
      read_pages rest (text ++ line)
  end.

(** [extract_text_from_pdf] of app.py: no test for a page without text and
    no handler around the loop. *)
Definition extract_text_from_pdf {F : Type}
    (pdfplumber_open : F -> OCREngine.document) (file : F) : outcome str :=
  pages <- pdfplumber_open file ;; read_pages pages [].

End App.

(** ** main.py *)

Module Main.

(** An uploaded file as the endpoints use it: its name and what
    [await file.read()] returns. *)
Record UploadFile : Type := { filename : str; content : list Byte.byte }.

(** [raise HTTPException(status_code, detail)]. *)
Record HTTPException : Type := { status_code : nat; detail : str }.

Inductive reply (A : Type) : Type :=
| Respond : A -> reply A
| Abort : HTTPException -> reply A.

Arguments Respond {A} _.
Arguments Abort {A} _.

(** The dictionary a parser returned. *)
Inductive parsed : Type :=
| Invoice : InvoiceParser.result -> parsed
| Receipt : ReceiptParser.result -> parsed.

(** [result.get('confidence', default)]: both kinds of result have the key. *)
Definition get_confidence (result : parsed) (default : float) : float :=
  match result with
  | Invoice r => InvoiceParser.confidence r
  | Receipt r => ReceiptParser.confidence r
  end.

Record ExtractionResponse : Type := {
  status : str;
  data : parsed;
  confidence : float
}.

(** An element of the [results] of a batch: the keys "filename" and
    "status", and "data" or "error", whichever is present. *)
Record batch_entry : Type := {
  entry_filename : str;
  entry_status : str;
  entry_data : option parsed;
  entry_error : option str
}.

Record batch_reply : Type := { results : list batch_entry; total : nat }.

(** The files in the directory of temporary files, by name. *)
Definition disk : Type := list (str * list Byte.byte).

Fixpoint str_eqb (a b : str) : bool :=
  match a, b with
  | [], [] => true
  | x :: a', y :: b' => (x =? y)%N && str_eqb a' b'
  | _, _ => false
  end.

Fixpoint lookup (path : str) (d : disk) : option (list Byte.byte) :=
  match d with
  | [] => None
  | (q, c) :: d' => if str_eqb q path then Some c else lookup path d'
  end.

(** [os.unlink]. *)
Fixpoint unlink (path : str) (d : disk) : disk :=
  match d with
  | [] => []
  | (q, c) :: d' =>
      if str_eqb q path then unlink path d' else (q, c) :: unlink path d'
  end.

(** The file [path] with the contents [c], in place of what was there. *)
Definition write (path : str) (c : list Byte.byte) (d : disk) : disk :=
  (path, c) :: unlink path d.

(** [os.path.exists]. *)
Definition exists_ (path : str) (d : disk) : bool :=
  match lookup path d with Some _ => true | None => false end.

(** [s.endswith(suffix)]. *)
Definition endswith (s suffix : str) : bool :=
  (length suffix <=? length s)
  && str_eqb (List.skipn (length s - length suffix) s) suffix.

Fixpoint startswith (s prefix : str) : bool :=
  match prefix, s with
  | [], _ => true
  | x :: prefix', y :: s' => (x =? y)%N && startswith s' prefix'
  | _ :: _, [] => false
  end.

(** [needle in hay] on strings. *)
Fixpoint contains (needle hay : str) : bool :=
  startswith hay needle
  || match hay with
     | [] => false
     | _ :: hay' => contains needle hay'
     end.

Section Endpoints.

Context {U : UnicodeDB}.

(** The surroundings of the endpoints: the name [NamedTemporaryFile]
    picks given the files that exist; what [pdfplumber.open] makes of a
    path, from the contents of the file there or its absence; what
    [str.lower] gives on a string with characters outside ASCII; and how
    much of the bytes written to a file has reached the disk while the file
    is still open.  Reading the upload and writing the temporary file are
    taken to succeed. *)
Variable mkstemp : disk -> str.
Variable pdf_reader : option (list Byte.byte) -> OCREngine.document.
Variable uni_lower : str -> str.
Variable flushed : list Byte.byte -> list Byte.byte.

Definition pdfplumber_open (d : disk) (path : str) : OCREngine.document :=
  pdf_reader (lookup path d).

(** [str.lower]: on ASCII, the capital letters become small letters. *)
Definition lower (s : str) : str :=
  if List.forallb (fun c => c <? 128)%N s
  then List.map (fun c => if between 65%N 90%N c then (c + 32)%N else c) s
  else uni_lower s.

(** The two extraction endpoints: the test of the file name, then the
    temporary file, the parser on it once it is closed, and its removal on
    both ways out of the [try]. *)
Definition extract_with (parse : (str -> OCREngine.document) -> str -> outcome parsed)
    (d : disk) (file : UploadFile) : reply ExtractionResponse * disk :=
  if negb (endswith (filename file) (py ".pdf"))
  then (Abort {| status_code := 400;
                 detail := py "Only PDF files are supported" |}, d)
  else
    let tmp_path := mkstemp d in
    let d1 := write tmp_path (content file) d in
    match parse (pdfplumber_open d1) tmp_path with
    | Returned result =>
        (Respond {| status := py "success";
                    data := result;
                    confidence := get_confidence result 0%float |},
         unlink tmp_path d1)
    | Raised e =>
        (Abort {| status_code := 500;
                  detail := py "Processing error: " ++ e |},
         if exists_ tmp_path d1 then unlink tmp_path d1 else d1)
    end.

Definition invoice_parser_parse (open : str -> OCREngine.document)
    (path : str) : outcome parsed :=
  r <- InvoiceParser.parse open path ;; Returned (Invoice r).

Definition receipt_parser_parse (open : str -> OCREngine.document)
    (path : str) : outcome parsed :=
  r <- ReceiptParser.parse open path ;; Returned (Receipt r).

Definition extract_invoice (d : disk) (file : UploadFile)
  : reply ExtractionResponse * disk :=
  extract_with invoice_parser_parse d file.

Definition extract_receipt (d : disk) (file : UploadFile)
  : reply ExtractionResponse * disk :=
  extract_with receipt_parser_parse d file.

(** One turn of the loop of [extract_batch]: the parser runs while the
    temporary file is still open, on what has reached the disk; the file is
    removed only when the parser returned, and is closed with all its
    contents when the parser raised. *)
Definition batch_step (d : disk) (file : UploadFile) : batch_entry * disk :=
  let tmp_name := mkstemp d in
  let d_open := write tmp_name (flushed (content file)) d in
  let parse :=
    if contains (py "invoice") (lower (filename file))
    then invoice_parser_parse
    else receipt_parser_parse in
  match parse (pdfplumber_open d_open) tmp_name with
  | Returned result =>
      ({| entry_filename := filename file;
          entry_status := py "success";
          entry_data := Some result;
          entry_error := None |},
       unlink tmp_name d_open)
  | Raised e =>
      ({| entry_filename := filename file;
          entry_status := py "error";
          entry_data := None;
          entry_error := Some e |},
       write tmp_name (content file) d)
  end.

Fixpoint batch_loop (files : list UploadFile) (d : disk)
    (results : list batch_entry) : list batch_entry * disk :=
  match files with
  | [] => (results, d)
  | file :: rest =>
      let (entry, d') := batch_step d file in
      batch_loop rest d' (results ++ [entry])
  end.

Definition extract_batch (d : disk) (files : list UploadFile)
  : reply batch_reply * disk :=
  if 10 <? length files
  then (Abort {| status_code := 400;
                 detail := py "Maximum 10 files per batch" |}, d)
  else
    let (results, d') := batch_loop files d [] in
    (Respond {| results := results; total := length files |}, d').

End Endpoints.

End Main.

(** ** What a pattern matches *)

Section Semantics.

Context {U : UnicodeDB}.

(** The text around a position. *)
Definition text_of (cu : cursor) : str := List.rev (before cu) ++ after cu.

(** [e] is [cu] moved over one character that satisfies [p]. *)
Definition consumes (p : char -> bool) (cu e : cursor) : Prop :=
  exists c, after cu = c :: after e /\ before e = c :: before cu /\ p c = true.

Fixpoint iter (R : cursor -> cursor -> Prop) (n : nat) (cu e : cursor) : Prop :=
  match n with
  | O => cu = e
  | S n' => exists m, R cu m /\ iter R n' m e
  end.

Definition within (n : nat) (hi : option nat) : Prop :=
  match hi with Some h => n <= h | None => True end.

(** [matches r cu e]: the pattern [r] matches the text between the positions
    [cu] and [e], whatever the priorities. *)
Fixpoint matches (r : regex) (cu e : cursor) : Prop :=
  match r with
  | Dec => consumes is_decimal cu e
  | Chr c => consumes (N.eqb c) cu e
  | Cls cs => consumes (in_class cs) cu e
  | Bnd => at_boundary cu = true /\ e = cu
  | Cat a b => exists m, matches a cu m /\ matches b m e
  | Alt a b => matches a cu e \/ matches b cu e
  | Rep a lo hi =>
      exists n, lo <= n /\ within n hi /\
        iter (fun x y => matches a x y /\ length (after y) < length (after x))
             n cu e
  end.

(** [e] is [cu] moved over [tok]. *)
Definition spans (cu : cursor) (tok : str) (e : cursor) : Prop :=
  after cu = tok ++ after e /\ before e = List.rev tok ++ before cu.

Definition digits (s : str) : Prop := List.Forall (fun c => is_decimal c = true) s.

(** The last character of a string, if any. *)
Definition last_error (s : str) : option char := List.hd_error (List.rev s).

(** Shape (a): four digits, a hyphen, two digits, a hyphen, two digits. *)
Definition shape_iso (tok : str) : bool :=
  match tok with
  | [y1; y2; y3; y4; s1; m1; m2; s2; d1; d2] =>
      List.forallb is_decimal [y1; y2; y3; y4; m1; m2; d1; d2]
      && (s1 =? HYPHEN)%N && (s2 =? HYPHEN)%N
  | _ => false
  end.

(** Shape (b): two digits, a slash or hyphen, two digits, a slash or hyphen,
    two to four digits. *)
Definition shape_dmy (tok : str) : bool :=
  match tok with
  | d1 :: d2 :: s1 :: m1 :: m2 :: s2 :: y =>
      List.forallb is_decimal [d1; d2; m1; m2]
      && in_class [SLASH; HYPHEN] s1 && in_class [SLASH; HYPHEN] s2
      && (2 <=? length y) && (length y <=? 4) && List.forallb is_decimal y
  | _ => false
  end.

(** The amount shape: one to three digits, any number of groups of a comma
    and exactly three digits, a decimal point, exactly two digits. *)
Definition shape_amount (tok : str) : Prop :=
  exists lead groups frac,
    tok = lead ++ List.concat (List.map (cons COMMA) groups) ++ DOT :: frac
    /\ digits lead /\ 1 <= length lead <= 3
    /\ List.Forall (fun g => digits g /\ length g = 3) groups
    /\ digits frac /\ length frac = 2.

(** No word character, respectively no digit, at a neighbouring place; the
    end of the text counts as neither. *)
Definition no_word (o : option char) : Prop := word_at o = false.

Definition no_digit (o : option char) : Prop :=
  match o with Some c => is_decimal c = false | None => True end.

(** [tok] stands in [text] between token boundaries: the character before
    it and the character after it, where there is one, are not word
    characters, so they are not digits. *)
Definition bounded_in (text tok : str) : Prop :=
  exists pre post,
    text = pre ++ tok ++ post
    /\ no_word (last_error pre) /\ no_word (List.hd_error post)
    /\ no_digit (last_error pre) /\ no_digit (List.hd_error post).

(** The longest run of digits at the start of [s], up to [n] of them. *)
Fixpoint take_digits (n : nat) (s : str) : str :=
  match n, s with
  | S n', c :: s' => if is_decimal c then c :: take_digits n' s' else []
  | _, _ => []
  end.

(** The string of shape (a) that starts [s], if there is one. *)
Definition iso_at (s : str) : option str :=
  let tok := List.firstn 10 s in
  if shape_iso tok then Some tok else None.

(** The string of shape (b) that starts [s], if there is one: two digits, a
    separator, two digits, a separator, and the digits that follow, as many
    as there are up to four. *)
Definition dmy_at (s : str) : option str :=
  match s with
  | d1 :: d2 :: s1 :: m1 :: m2 :: s2 :: rest =>
      let tok := [d1; d2; s1; m1; m2; s2] ++ take_digits 4 rest in
      if shape_dmy tok then Some tok else None
  | _ => None
  end.

(** All the matches over a text, written without the matcher: from left to
    right, [at_ s] tells which string of the shape starts the rest [s] of
    the text; when there is one it is a match and the search goes on after
    it, otherwise the search goes on one character further. *)
Fixpoint matches_from (at_ : str -> option str) (fuel : nat) (s : str)
  : list str :=
  match fuel with
  | O => []
  | S fuel' =>
      match at_ s with
      | Some tok => tok :: matches_from at_ fuel' (List.skipn (length tok) s)
      | None =>
          match s with
          | [] => []
          | _ :: s' => matches_from at_ fuel' s'
          end
      end
  end.

Definition all_matches (at_ : str -> option str) (text : str) : list str :=
  matches_from at_ (S (length text)) text.

(** The strings [toks] stand in [s] one after the other, from left to
    right and without overlap. *)
Fixpoint in_order (toks : list str) (s : str) : Prop :=
  match toks with
  | [] => True
  | tok :: rest => exists gap s', s = gap ++ tok ++ s' /\ in_order rest s'
  end.

(** What a page adds to the text acquired by the engine. *)
Definition page_line (page_text : option str) : str :=
  match page_text with
  | Some (c :: t) => (c :: t) ++ [NEWLINE]
  | _ => []
  end.

End Semantics.

(** ** The matcher against the meaning of patterns *)

Section EngineFacts.

Context {U : UnicodeDB}.

Local Notation "'shrinking' a" :=
  (fun x y => matches a x y /\ length (after y) < length (after x))
  (at level 10, a at level 9, only parsing).

Lemma run_rep (a : regex) (lo : nat) (hi : option nat) (cu : cursor)
    (k : cursor -> option cursor) :
  run (Rep a lo hi) cu k = rep_loop (run a) lo hi k (length (after cu)) 0 cu.
Proof. reflexivity. Qed.

Lemma rep_loop_eq (a : regex) (lo : nat) (hi : option nat)
    (k : cursor -> option cursor) (fuel n : nat) (cu : cursor) :
  rep_loop (run a) lo hi k fuel n cu =
  match
    match fuel with
    | O => None
    | S fuel' =>
        if may_repeat n hi
        then run a cu (fun m =>
               if length (after m) <? length (after cu)
               then rep_loop (run a) lo hi k fuel' (S n) m else None)
        else None
    end
  with
  | Some e => Some e
  | None => if lo <=? n then k cu else None
  end.
Proof. destruct fuel; reflexivity. Qed.

Lemma rep_loop_eq_gen
    (step : cursor -> (cursor -> option cursor) -> option cursor)
    (lo : nat) (hi : option nat) (k : cursor -> option cursor)
    (fuel n : nat) (cu : cursor) :
  rep_loop step lo hi k fuel n cu =
  match
    match fuel with
    | O => None
    | S fuel' =>
        if may_repeat n hi
        then step cu (fun m =>
               if length (after m) <? length (after cu)
               then rep_loop step lo hi k fuel' (S n) m else None)
        else None
    end
  with
  | Some e => Some e
  | None => if lo <=? n then k cu else None
  end.
Proof. destruct fuel; reflexivity. Qed.

Lemma eat_sound (p : char -> bool) (cu : cursor) (k : cursor -> option cursor)
    (e : cursor) :
  eat p cu k = Some e -> exists m, consumes p cu m /\ k m = Some e.
Proof.
  unfold eat. destruct (after cu) as [|c s] eqn:Hs; [discriminate|].
  destruct (p c) eqn:Hp; [|discriminate].
  intros Hk. exists (Cursor (c :: before cu) s). split; [|exact Hk].
  exists c. simpl. auto.
Qed.

Lemma eat_complete (p : char -> bool) (cu m : cursor)
    (k : cursor -> option cursor) :
  consumes p cu m -> eat p cu k = k m.
Proof.
  intros (c & Ha & Hb & Hp). unfold eat. rewrite Ha, Hp.
  destruct m as [b s]. simpl in *. now subst.
Qed.

Lemma may_repeat_within (n : nat) (hi : option nat) :
  may_repeat n hi = true -> within (S n) hi.
Proof.
  destruct hi as [h|]; simpl; [|trivial].
  intros H. apply Nat.ltb_lt in H. lia.
Qed.

Lemma within_may_repeat (n : nat) (hi : option nat) :
  within (S n) hi -> may_repeat n hi = true.
Proof.
  destruct hi as [h|]; simpl; [|trivial].
  intros H. apply Nat.ltb_lt. lia.
Qed.

Lemma rep_loop_sound (a : regex) (lo : nat) (hi : option nat)
    (k : cursor -> option cursor) :
  (forall cu k e, run a cu k = Some e ->
                  exists m, matches a cu m /\ k m = Some e) ->
  forall fuel n cu e,
    within n hi ->
    rep_loop (run a) lo hi k fuel n cu = Some e ->
    exists j m, iter (shrinking a) j cu m /\ lo <= n + j /\ within (n + j) hi
                /\ k m = Some e.
Proof.
  intros IHa. induction fuel as [|fuel IH]; intros n cu e Hn;
    rewrite rep_loop_eq.
  - destruct (lo <=? n) eqn:Hlo; [|discriminate].
    intros Hk. exists 0, cu. rewrite Nat.add_0_r.
    apply Nat.leb_le in Hlo. simpl. auto.
  - destruct (may_repeat n hi) eqn:Hrep.
    + destruct (run a cu _) as [e0|] eqn:Hrun.
      * intros He. injection He as ->.
        apply IHa in Hrun. destruct Hrun as (m & Hm & Hk).
        destruct (length (after m) <? length (after cu)) eqn:Hlt; [|discriminate].
        apply Nat.ltb_lt in Hlt.
        apply IH in Hk; [|now apply may_repeat_within].
        destruct Hk as (j & m' & Hit & Hlo & Hhi & Hk).
        exists (S j), m'. rewrite Nat.add_succ_r. simpl. eauto 8.
      * destruct (lo <=? n) eqn:Hlo; [|discriminate].
        intros Hk. exists 0, cu. rewrite Nat.add_0_r.
        apply Nat.leb_le in Hlo. simpl. auto.
    + destruct (lo <=? n) eqn:Hlo; [|discriminate].
      intros Hk. exists 0, cu. rewrite Nat.add_0_r.
      apply Nat.leb_le in Hlo. simpl. auto.
Qed.

(** Whatever the matcher returns is a match of the pattern that the
    continuation accepted. *)
Lemma run_sound (r : regex) :
  forall cu k e, run r cu k = Some e ->
                 exists m, matches r cu m /\ k m = Some e.
Proof.
  induction r as [| c | cs | | a IHa b IHb | a IHa b IHb | a IHa lo hi];
    intros cu k e H.
  - now apply eat_sound.
  - now apply eat_sound.
  - now apply eat_sound.
  - simpl in H. destruct (at_boundary cu) eqn:Hb; [|discriminate].
    exists cu. simpl. auto.
  - simpl in H. apply IHa in H. destruct H as (m & Hm & H).
    apply IHb in H. destruct H as (m' & Hm' & H).
    exists m'. simpl. eauto.
  - simpl in H. destruct (run a cu k) as [e0|] eqn:Ha.
    + injection H as ->. apply IHa in Ha. destruct Ha as (m & Hm & Hk).
      exists m. simpl. auto.
    + apply IHb in H. destruct H as (m & Hm & Hk). exists m. simpl. auto.
  - rewrite run_rep in H.
    apply (rep_loop_sound a lo hi k IHa) in H; [|destruct hi; simpl; [lia|trivial]].
    destruct H as (j & m & Hit & Hlo & Hhi & Hk).
    exists m. split; [|exact Hk]. simpl. exists j. auto.
Qed.

Lemma rep_loop_complete (a : regex) (lo : nat) (hi : option nat)
    (k : cursor -> option cursor) :
  (forall cu m k e, matches a cu m -> k m = Some e ->
                    exists e', run a cu k = Some e') ->
  forall j fuel n cu m e,
    length (after cu) <= fuel ->
    iter (shrinking a) j cu m -> lo <= n + j -> within (n + j) hi ->
    k m = Some e ->
    exists e', rep_loop (run a) lo hi k fuel n cu = Some e'.
Proof.
  intros IHa. induction j as [|j IH]; intros fuel n cu m e Hfuel Hit Hlo Hhi Hk;
    rewrite rep_loop_eq.
  - simpl in Hit. subst m. rewrite Nat.add_0_r in Hlo.
    apply Nat.leb_le in Hlo. rewrite Hlo, Hk.
    destruct (match fuel with O => None | S _ => _ end); eauto.
  - simpl in Hit. destruct Hit as (m1 & (Hm1 & Hlt) & Hit).
    rewrite Nat.add_succ_r in Hlo, Hhi.
    destruct fuel as [|fuel]; [lia|].
    assert (Hrep : may_repeat n hi = true).
    { apply within_may_repeat. destruct hi; simpl in *; [lia|trivial]. }
    rewrite Hrep.
    assert (Hin : exists e', rep_loop (run a) lo hi k fuel (S n) m1 = Some e').
    { apply (IH fuel (S n) m1 m e); auto. lia. }
    destruct Hin as (e1 & He1).
    destruct (IHa cu m1
                (fun m0 => if length (after m0) <? length (after cu)
                           then rep_loop (run a) lo hi k fuel (S n) m0 else None)
                e1 Hm1) as (e2 & He2).
    { apply Nat.ltb_lt in Hlt. now rewrite Hlt. }
    rewrite He2. eauto.
Qed.

(** When the pattern has a match that the continuation accepts, the matcher
    returns one. *)
Lemma run_complete (r : regex) :
  forall cu m k e, matches r cu m -> k m = Some e ->
                   exists e', run r cu k = Some e'.
Proof.
  induction r as [| c | cs | | a IHa b IHb | a IHa b IHb | a IHa lo hi];
    intros cu m k e Hm Hk.
  - simpl in *. rewrite (eat_complete _ _ _ k Hm). eauto.
  - simpl in *. rewrite (eat_complete _ _ _ k Hm). eauto.
  - simpl in *. rewrite (eat_complete _ _ _ k Hm). eauto.
  - simpl in *. destruct Hm as (Hb & ->). rewrite Hb. eauto.
  - simpl in *. destruct Hm as (m1 & Ha & Hb).
    destruct (IHb m1 m k e Hb Hk) as (e1 & He1).
    exact (IHa cu m1 (fun m0 => run b m0 k) e1 Ha He1).
  - simpl in *. destruct (run a cu k) as [e0|] eqn:Hrun; [eauto|].
    destruct Hm as [Ha | Hb].
    + destruct (IHa cu m k e Ha Hk) as (e1 & He1). congruence.
    + exact (IHb cu m k e Hb Hk).
  - rewrite run_rep. simpl in Hm. destruct Hm as (j & Hlo & Hhi & Hit).
    apply (rep_loop_complete a lo hi k IHa j (length (after cu)) 0 cu m e); auto.
Qed.

(** *** Positions *)

Lemma spans_nil (cu : cursor) : spans cu [] cu.
Proof. split; reflexivity. Qed.

Lemma spans_app (cu m e : cursor) (t1 t2 : str) :
  spans cu t1 m -> spans m t2 e -> spans cu (t1 ++ t2) e.
Proof.
  intros [Ha Hb] [Hc Hd]. split.
  - rewrite Ha, Hc. now rewrite List.app_assoc.
  - rewrite Hd, Hb, List.rev_app_distr. now rewrite List.app_assoc.
Qed.

Lemma spans_text_of (cu e : cursor) (tok : str) :
  spans cu tok e -> text_of e = text_of cu.
Proof.
  intros [Ha Hb]. unfold text_of.
  rewrite Ha, Hb, List.rev_app_distr, List.rev_involutive.
  now rewrite List.app_assoc.
Qed.

Lemma spans_length (cu e : cursor) (tok : str) :
  spans cu tok e -> length (after cu) = length tok + length (after e).
Proof. intros [Ha _]. rewrite Ha. apply List.length_app. Qed.

Lemma spans_matched (cu e : cursor) (tok : str) :
  spans cu tok e -> matched cu e = tok.
Proof.
  intros H. unfold matched. rewrite (spans_length _ _ _ H).
  destruct H as [Ha _]. rewrite Ha.
  replace (length tok + length (after e) - length (after e)) with (length tok)
    by lia.
  rewrite List.firstn_app, Nat.sub_diag, List.firstn_all. simpl.
  apply List.app_nil_r.
Qed.

Lemma spans_in_text (cu e : cursor) (tok : str) :
  spans cu tok e -> text_of cu = List.rev (before cu) ++ tok ++ after e.
Proof. intros [Ha _]. unfold text_of. now rewrite Ha. Qed.

Lemma consumes_spans (p : char -> bool) (cu e : cursor) :
  consumes p cu e -> exists c, p c = true /\ spans cu [c] e.
Proof.
  intros (c & Ha & Hb & Hp). exists c. split; [exact Hp|].
  split; simpl; assumption.
Qed.

Lemma iter_spans (R : cursor -> cursor -> Prop) :
  (forall x y, R x y -> exists tok, spans x tok y) ->
  forall n cu e, iter R n cu e -> exists tok, spans cu tok e.
Proof.
  intros HR. induction n as [|n IH]; simpl; intros cu e H.
  - subst. exists []. apply spans_nil.
  - destruct H as (m & Hm & Hit).
    destruct (HR _ _ Hm) as (t1 & H1). destruct (IH _ _ Hit) as (t2 & H2).
    exists (t1 ++ t2). eapply spans_app; eassumption.
Qed.

(** A match moves the position over the text it matched. *)
Lemma matches_spans (r : regex) :
  forall cu e, matches r cu e -> exists tok, spans cu tok e.
Proof.
  induction r as [| c | cs | | a IHa b IHb | a IHa b IHb | a IHa lo hi];
    simpl; intros cu e H.
  - apply consumes_spans in H. destruct H as (c & _ & H). eauto.
  - apply consumes_spans in H. destruct H as (c' & _ & H). eauto.
  - apply consumes_spans in H. destruct H as (c & _ & H). eauto.
  - destruct H as [_ ->]. exists []. apply spans_nil.
  - destruct H as (m & Ha & Hb).
    destruct (IHa _ _ Ha) as (t1 & H1). destruct (IHb _ _ Hb) as (t2 & H2).
    exists (t1 ++ t2). eapply spans_app; eassumption.
  - destruct H as [H | H]; auto.
  - destruct H as (n & _ & _ & Hit).
    apply iter_spans in Hit; [exact Hit|].
    intros x y [Hxy _]. auto.
Qed.

Lemma match_at_sound (r : regex) (cu e : cursor) :
  match_at r cu = Some e -> matches r cu e.
Proof.
  unfold match_at. intros H. apply run_sound in H.
  destruct H as (m & Hm & Heq). now injection Heq as <-.
Qed.

Lemma match_at_complete (r : regex) (cu e : cursor) :
  matches r cu e -> match_at r cu <> None.
Proof.
  intros H. destruct (run_complete r cu e Some e H eq_refl) as (e' & He').
  unfold match_at. congruence.
Qed.

Lemma advance_text_of (cu cu' : cursor) :
  advance cu = Some cu' -> text_of cu' = text_of cu.
Proof.
  unfold advance, text_of. destruct cu as [b s]. simpl.
  destruct s as [|c s]; [discriminate|].
  intros H. injection H as <-. simpl. now rewrite <- List.app_assoc.
Qed.

(** *** The scan *)

(** Every string the scan returns is the text of a match of the pattern
    somewhere in the subject. *)
Lemma scan_sound (r : regex) :
  forall fuel cu tok,
    List.In tok (scan fuel r cu) ->
    exists st e, text_of st = text_of cu /\ matches r st e /\ spans st tok e.
Proof.
  induction fuel as [|fuel IH]; simpl; intros cu tok Hin; [contradiction|].
  assert (Hadv : List.In tok (match advance cu with
                              | Some cu' => scan fuel r cu'
                              | None => []
                              end) ->
                 exists st e, text_of st = text_of cu /\ matches r st e
                              /\ spans st tok e).
  { destruct (advance cu) as [cu'|] eqn:Ha; [|contradiction].
    intros H. apply IH in H. destruct H as (st & e & Ht & Hm & Hs).
    exists st, e. rewrite Ht. split; [now apply advance_text_of|]. auto. }
  destruct (match_at r cu) as [e|] eqn:Hm; [|auto].
  apply match_at_sound in Hm.
  destruct (matches_spans r _ _ Hm) as (t & Hs).
  destruct Hin as [Heq | Hin].
  - exists cu, e. rewrite <- Heq, (spans_matched _ _ _ Hs). auto.
  - destruct (length (after e) <? length (after cu)); [|auto].
    apply IH in Hin. destruct Hin as (st & e' & Ht & Hm' & Hs').
    exists st, e'. rewrite Ht. split; [now apply (spans_text_of _ _ _ Hs)|].
    auto.
Qed.

Lemma findall_sound (r : regex) (text tok : str) :
  List.In tok (findall r text) ->
  exists st e, text_of st = text /\ matches r st e /\ spans st tok e.
Proof. unfold findall. intros H. now apply scan_sound in H. Qed.

(** When the pattern matches at some position of the subject, the scan
    returns at least one string. *)
Lemma scan_nonempty (r : regex) (s : str) :
  forall p b fuel,
    length (p ++ s) < fuel ->
    match_at r (Cursor (List.rev p ++ b) s) <> None ->
    scan fuel r (Cursor b (p ++ s)) <> [].
Proof.
  induction p as [|c p IH]; intros b fuel Hfuel Hm;
    (destruct fuel as [|fuel]; [simpl in Hfuel; lia|]); simpl in *.
  - destruct (match_at r (Cursor b s)); [discriminate|congruence].
  - destruct (match_at r (Cursor b (c :: p ++ s))); [discriminate|].
    unfold advance. simpl. apply IH; [lia|].
    now rewrite <- List.app_assoc in Hm.
Qed.

Lemma findall_nonempty (r : regex) (st e : cursor) :
  matches r st e -> findall r (text_of st) <> [].
Proof.
  intros H. unfold findall, text_of.
  apply scan_nonempty; [lia|].
  rewrite List.rev_involutive, List.app_nil_r.
  destruct st as [b s]. simpl. now apply match_at_complete with e.
Qed.

End EngineFacts.

(** ** The three patterns of the engine *)

Section PatternFacts.

Context {U : UnicodeDB}.

Import OCREngine.

Lemma digits_forallb (ds : str) : digits ds -> List.forallb is_decimal ds = true.
Proof. intros H. apply List.forallb_forall. now apply List.Forall_forall. Qed.

Lemma decimal_is_word (c : char) : is_decimal c = true -> is_word c = true.
Proof. intros H. unfold is_word, is_alnum. now rewrite H. Qed.

Lemma iter_dec (n : nat) :
  forall cu e,
    iter (fun x y => matches Dec x y /\ length (after y) < length (after x))
         n cu e ->
    exists ds, digits ds /\ length ds = n /\ spans cu ds e.
Proof.
  induction n as [|n IH]; simpl; intros cu e H.
  - subst. exists []. repeat split. constructor.
  - destruct H as (m & [Hm _] & Hit).
    apply consumes_spans in Hm. destruct Hm as (c & Hc & Hs).
    destruct (IH _ _ Hit) as (ds & Hds & Hlen & Hs').
    exists (c :: ds). split; [now constructor|]. split; [simpl; lia|].
    now apply (spans_app _ _ _ [c] ds Hs).
Qed.

(** A run of digits, and back. *)
Lemma rep_dec_inv (lo : nat) (hi : option nat) (cu e : cursor) :
  matches (Rep Dec lo hi) cu e ->
  exists ds, digits ds /\ lo <= length ds /\ within (length ds) hi
             /\ spans cu ds e.
Proof.
  intros (n & Hlo & Hhi & Hit). apply iter_dec in Hit.
  destruct Hit as (ds & Hds & Hlen & Hs). exists ds. subst n. auto.
Qed.

Lemma exactly_dec_inv (n : nat) (cu e : cursor) :
  matches (exactly n Dec) cu e ->
  exists ds, digits ds /\ length ds = n /\ spans cu ds e.
Proof.
  intros H. apply rep_dec_inv in H. destruct H as (ds & Hds & Hlo & Hhi & Hs).
  exists ds. simpl in Hhi. split; [exact Hds|]. split; [lia|exact Hs].
Qed.

Lemma rep_dec_intro (lo : nat) (hi : option nat) (ds : str) :
  digits ds -> lo <= length ds -> within (length ds) hi ->
  forall cu e, spans cu ds e -> matches (Rep Dec lo hi) cu e.
Proof.
  intros Hds Hlo Hhi cu e Hs. exists (length ds). repeat split; auto.
  clear Hlo Hhi. revert cu Hs.
  induction Hds as [|c ds Hc Hds IH]; intros cu [Ha Hb]; simpl in *.
  - destruct cu, e. simpl in *. now subst.
  - exists (Cursor (c :: before cu) (ds ++ after e)). split.
    + split; [exists c; simpl; auto|]. rewrite Ha. simpl. lia.
    + apply IH. split; simpl; [reflexivity|].
      now rewrite <- List.app_assoc in Hb.
Qed.

Lemma chr_inv (c : char) (cu e : cursor) :
  matches (Chr c) cu e -> spans cu [c] e.
Proof.
  intros H. apply consumes_spans in H. destruct H as (c' & Hc & Hs).
  apply N.eqb_eq in Hc. now subst.
Qed.

Lemma chr_intro (c : char) (cu e : cursor) :
  spans cu [c] e -> matches (Chr c) cu e.
Proof. intros [Ha Hb]. exists c. simpl in *. now rewrite N.eqb_refl. Qed.

Lemma cls_intro (cs : list char) (c : char) (cu e : cursor) :
  in_class cs c = true -> spans cu [c] e -> matches (Cls cs) cu e.
Proof. intros Hc [Ha Hb]. exists c. simpl in *. auto. Qed.

Lemma spans_split (t1 t2 : str) (cu e : cursor) :
  spans cu (t1 ++ t2) e ->
  exists m, spans cu t1 m /\ spans m t2 e.
Proof.
  intros [Ha Hb]. exists (Cursor (List.rev t1 ++ before cu) (t2 ++ after e)).
  split; split; simpl; auto.
  - now rewrite <- List.app_assoc in Ha.
  - now rewrite Hb, List.rev_app_distr, <- List.app_assoc.
Qed.

Ltac digit_facts :=
  unfold digits in *;
  repeat match goal with
         | H : List.Forall _ (_ :: _) |- _ => inversion H; subst; clear H
         | H : List.Forall _ [] |- _ => clear H
         end.

(** Shape (a), from a match of the first date pattern. *)
Lemma date_iso_inv (cu e : cursor) :
  matches date_iso cu e ->
  exists y1 y2 y3 y4 m1 m2 d1 d2,
    digits [y1; y2; y3; y4; m1; m2; d1; d2]
    /\ spans cu [y1; y2; y3; y4; HYPHEN; m1; m2; HYPHEN; d1; d2] e.
Proof.
  intros (p1 & H1 & p2 & H2 & p3 & H3 & p4 & H4 & H5).
  apply exactly_dec_inv in H1, H3, H5.
  apply chr_inv in H2, H4.
  destruct H1 as (ys & Hys & Lys & Sys).
  destruct H3 as (ms & Hms & Lms & Sms).
  destruct H5 as (ds & Hds & Lds & Sds).
  destruct ys as [|y1 [|y2 [|y3 [|y4 [|]]]]]; try discriminate Lys.
  destruct ms as [|m1 [|m2 [|]]]; try discriminate Lms.
  destruct ds as [|d1 [|d2 [|]]]; try discriminate Lds.
  exists y1, y2, y3, y4, m1, m2, d1, d2. split.
  - digit_facts. repeat constructor; assumption.
  - apply (spans_app _ _ _ [y1; y2; y3; y4] _ Sys).
    apply (spans_app _ _ _ [HYPHEN] _ H2).
    apply (spans_app _ _ _ [m1; m2] _ Sms).
    apply (spans_app _ _ _ [HYPHEN] _ H4). exact Sds.
Qed.

Lemma date_iso_shape (cu e : cursor) :
  matches date_iso cu e -> exists tok, spans cu tok e /\ shape_iso tok = true.
Proof.
  intros H. apply date_iso_inv in H.
  destruct H as (y1 & y2 & y3 & y4 & m1 & m2 & d1 & d2 & Hd & Hs).
  eexists. split; [exact Hs|].
  unfold shape_iso. rewrite (digits_forallb _ Hd). reflexivity.
Qed.

(** Shape (b), from a match of the second date pattern. *)
Lemma date_dmy_shape (cu e : cursor) :
  matches date_dmy cu e -> exists tok, spans cu tok e /\ shape_dmy tok = true.
Proof.
  intros (p1 & H1 & p2 & H2 & p3 & H3 & p4 & H4 & H5).
  apply exactly_dec_inv in H1, H3. apply rep_dec_inv in H5.
  apply consumes_spans in H2, H4.
  destruct H1 as (ds & Hds & Lds & Sds).
  destruct H2 as (s1 & Hs1 & Ss1).
  destruct H3 as (ms & Hms & Lms & Sms).
  destruct H4 as (s2 & Hs2 & Ss2).
  destruct H5 as (ys & Hys & Lo & Hi & Sys).
  destruct ds as [|d1 [|d2 [|]]]; try discriminate Lds.
  destruct ms as [|m1 [|m2 [|]]]; try discriminate Lms.
  exists ([d1; d2] ++ [s1] ++ [m1; m2] ++ [s2] ++ ys). split.
  - apply (spans_app _ _ _ _ _ Sds). apply (spans_app _ _ _ _ _ Ss1).
    apply (spans_app _ _ _ _ _ Sms). apply (spans_app _ _ _ _ _ Ss2).
    exact Sys.
  - simpl in Hi. cbn [app shape_dmy].
    digit_facts.
    assert (Hf : List.forallb is_decimal [d1; d2; m1; m2] = true).
    { apply digits_forallb. repeat constructor; assumption. }
    rewrite Hf, Hs1, Hs2, (digits_forallb _ Hys).
    apply Nat.leb_le in Lo, Hi. now rewrite Lo, Hi.
Qed.


Lemma iter_groups (n : nat) :
  forall cu e,
    iter (fun x y => matches (Chr COMMA @@ exactly 3 Dec) x y
                     /\ length (after y) < length (after x)) n cu e ->
    exists groups,
      List.Forall (fun g => digits g /\ length g = 3) groups
      /\ spans cu (List.concat (List.map (cons COMMA) groups)) e.
Proof.
  induction n as [|n IH]; simpl iter; intros cu e H.
  - subst. exists []. split; [constructor|apply spans_nil].
  - destruct H as (m & [(q & Hc & Hg) _] & Hit).
    apply chr_inv in Hc. apply exactly_dec_inv in Hg.
    destruct Hg as (g & Hg & Lg & Sg).
    destruct (IH _ _ Hit) as (gs & Hgs & Sgs).
    exists (g :: gs). split; [constructor; auto|].
    simpl. apply (spans_app _ _ _ (COMMA :: g) _ (spans_app _ _ _ _ _ Hc Sg)).
    exact Sgs.
Qed.

(** The amount shape and the two boundaries, from a match of the amount
    pattern. *)
Lemma amount_inv (cu e : cursor) :
  matches amount_pattern cu e ->
  exists tok,
    spans cu tok e /\ shape_amount tok
    /\ word_at (List.hd_error (before cu)) = false
    /\ word_at (List.hd_error (after e)) = false.
Proof.
  intros (p0 & [Hb0 ->] & p1 & H1 & p2 & H2 & p3 & H3 & p4 & H4 & Hb1 & ->).
  apply rep_dec_inv in H1. destruct H1 as (lead & Hlead & Llo & Lhi & Slead).
  destruct H2 as (n & _ & _ & Hit). apply iter_groups in Hit.
  destruct Hit as (groups & Hgroups & Sgroups).
  apply chr_inv in H3. apply exactly_dec_inv in H4.
  destruct H4 as (frac & Hfrac & Lfrac & Sfrac).
  exists (lead ++ List.concat (List.map (cons COMMA) groups) ++ DOT :: frac).
  split; [|split; [|split]].
  - apply (spans_app _ _ _ _ _ Slead). apply (spans_app _ _ _ _ _ Sgroups).
    exact (spans_app _ _ _ [DOT] _ H3 Sfrac).
  - exists lead, groups, frac. simpl in Lhi. auto 10.
  - unfold at_boundary in Hb0. destruct Slead as [Ha _]. rewrite Ha in Hb0.
    destruct lead as [|l1 lead]; [simpl in Llo; lia|].
    inversion Hlead as [|? ? Hl1 _]; subst.
    simpl in Hb0. rewrite (decimal_is_word _ Hl1) in Hb0.
    now destruct (word_at (List.hd_error (before cu))).
  - unfold at_boundary in Hb1. destruct Sfrac as [_ Hb]. rewrite Hb in Hb1.
    destruct frac as [|f1 [|f2 [|]]]; try discriminate Lfrac.
    inversion Hfrac as [|? ? _ Hf]; subst.
    inversion Hf as [|? ? Hf2 _]; subst.
    simpl in Hb1. rewrite (decimal_is_word _ Hf2) in Hb1.
    now destruct (word_at (List.hd_error (after p4))).
Qed.

End PatternFacts.

(** ** Helper facts on the extraction operations *)

Section ExtractionFacts.

Context {U : UnicodeDB}.

Import OCREngine.

Lemma spans_inj (cu e : cursor) (t1 t2 : str) :
  spans cu t1 e -> spans cu t2 e -> t1 = t2.
Proof.
  intros [Ha _] [Hb _]. rewrite Ha in Hb. now apply List.app_inv_tail in Hb.
Qed.

Lemma no_word_no_digit (o : option char) : no_word o -> no_digit o.
Proof.
  destruct o as [c|]; simpl; [|trivial]. unfold no_word. simpl. intros H.
  destruct (is_decimal c) eqn:Hc; [|reflexivity].
  apply decimal_is_word in Hc. congruence.
Qed.

Lemma extract_dates_eq (text : str) :
  extract_dates text = findall date_iso text ++ findall date_dmy text.
Proof. reflexivity. Qed.

Lemma findall_date_iso_shape (text : str) :
  List.Forall (fun tok => shape_iso tok = true) (findall date_iso text).
Proof.
  apply List.Forall_forall. intros tok Hin.
  apply findall_sound in Hin. destruct Hin as (st & e & _ & Hm & Hs).
  apply date_iso_shape in Hm. destruct Hm as (t & Hs' & Hshape).
  now rewrite (spans_inj _ _ _ _ Hs Hs').
Qed.

Lemma findall_date_dmy_shape (text : str) :
  List.Forall (fun tok => shape_dmy tok = true) (findall date_dmy text).
Proof.
  apply List.Forall_forall. intros tok Hin.
  apply findall_sound in Hin. destruct Hin as (st & e & _ & Hm & Hs).
  apply date_dmy_shape in Hm. destruct Hm as (t & Hs' & Hshape).
  now rewrite (spans_inj _ _ _ _ Hs Hs').
Qed.


Lemma extract_amounts_bounded (text : str) :
  List.Forall (fun tok => shape_amount tok /\ bounded_in text tok)
              (extract_amounts text).
Proof.
  apply List.Forall_forall. intros tok Hin.
  apply findall_sound in Hin. destruct Hin as (st & e & Ht & Hm & Hs).
  apply amount_inv in Hm. destruct Hm as (t & Hs' & Hshape & Hl & Hr).
  rewrite <- (spans_inj _ _ _ _ Hs Hs') in Hshape. split; [exact Hshape|].
  exists (List.rev (before st)), (after e).
  rewrite <- Ht, (spans_in_text _ _ _ Hs).
  unfold last_error. rewrite List.rev_involutive.
  repeat split; auto using no_word_no_digit.
Qed.

Lemma shape_amount_length (tok : str) : shape_amount tok -> 4 <= length tok.
Proof.
  intros (lead & groups & frac & -> & _ & Hl & _ & _ & Hf).
  rewrite !List.length_app. simpl. lia.
Qed.

Lemma last_any_default {A : Type} (l : list A) (d d' : A) :
  l <> [] -> List.last l d = List.last l d'.
Proof.
  induction l as [|a [|b l] IH]; intros Hl; [congruence|reflexivity|].
  change (List.last (b :: l) d = List.last (b :: l) d').
  apply IH. discriminate.
Qed.

Lemma last_in {A : Type} (l : list A) (d : A) :
  l <> [] -> List.In (List.last l d) l.
Proof.
  induction l as [|a [|b l] IH]; intros Hl; [congruence|now left|].
  right. apply IH. discriminate.
Qed.

(** [amounts[-1] if amounts else d]. *)
Lemma last_or_default (amounts : list str) (d : str) :
  (if truthy amounts then List.last amounts [] else d) = List.last amounts d.
Proof.
  destruct amounts as [|a l]; [reflexivity|].
  apply last_any_default. discriminate.
Qed.

(** [dates[0] if dates else None]. *)
Lemma first_or_none (dates : list str) :
  (if truthy dates then List.hd_error dates else None) = List.hd_error dates.
Proof. now destruct dates. Qed.

Lemma split_nonempty (sep : char) (s : str) : split sep s <> [].
Proof.
  induction s as [|c s IH]; simpl; [discriminate|].
  destruct (c =? sep)%N; [discriminate|].
  destruct (split sep s); discriminate.
Qed.

Lemma lstrip_blank (s : str) :
  List.forallb is_space s = true -> lstrip s = [].
Proof.
  induction s as [|c s IH]; simpl; [reflexivity|].
  intros H. apply andb_prop in H. destruct H as [Hc Hs]. rewrite Hc. auto.
Qed.

(** On a text of white space only the vendor is the empty string. *)
Lemma extract_vendor_blank (text : str) :
  List.forallb is_space text = true -> extract_vendor text = [].
Proof.
  intros H. unfold extract_vendor, strip.
  rewrite (lstrip_blank _ H). reflexivity.
Qed.

(** The vendor is always computed from the first line: the sentinel of the
    last line of [extract_vendor] is never taken. *)
Lemma extract_vendor_eq (text : str) :
  extract_vendor text =
  let vendor := strip (List.hd [] (split NEWLINE (strip text))) in
  if 100 <? length vendor then List.firstn 100 vendor ++ py "..." else vendor.
Proof.
  unfold extract_vendor.
  destruct (split NEWLINE (strip text)) as [|first rest] eqn:Hs; [|reflexivity].
  now apply split_nonempty in Hs.
Qed.

(** When the pattern matches nowhere, [findall] returns the empty list. *)
Lemma findall_no_match (r : regex) (text : str) :
  (forall st e, text_of st = text -> ~ matches r st e) -> findall r text = [].
Proof.
  intros H. destruct (findall r text) as [|tok l] eqn:Hf; [reflexivity|].
  assert (Hin : List.In tok (findall r text)) by (rewrite Hf; now left).
  apply findall_sound in Hin. destruct Hin as (st & e & Ht & Hm & _).
  now apply H in Hm.
Qed.

Lemma read_pages_all_returned (pages : list (option str)) (text : str) :
  exists text', read_pages (List.map Returned pages) text = Returned text'.
Proof.
  revert text. induction pages as [|p pages IH]; intros text; simpl; eauto.
Qed.

Lemma invoice_date_eq (text : str) :
  InvoiceParser.invoice_date (InvoiceParser.build text)
  = List.hd_error (extract_dates text).
Proof. apply first_or_none. Qed.

Lemma purchase_date_eq (text : str) :
  ReceiptParser.purchase_date (ReceiptParser.build text)
  = List.hd_error (extract_dates text).
Proof. apply first_or_none. Qed.

Lemma app_invoice_date_eq (text : str) :
  App.invoice_date (App.analyze_invoice_data text)
  = Some (List.hd (py "Not detected") (findall App.date_pattern text)).
Proof.
  unfold App.analyze_invoice_data. simpl.
  now destruct (findall App.date_pattern text).
Qed.

End ExtractionFacts.

(** ** The scans against all the matches of a shape *)

Section ScanReference.

Context {U : UnicodeDB}.

Import OCREngine.

Lemma spans_here (b tok s : str) :
  spans (Cursor b (tok ++ s)) tok (Cursor (List.rev tok ++ b) s).
Proof. split; reflexivity. Qed.

Lemma forallb_digits (ds : str) : List.forallb is_decimal ds = true -> digits ds.
Proof.
  intros H. apply List.Forall_forall. intros c Hc.
  rewrite List.forallb_forall in H. auto.
Qed.

Lemma shape_iso_matches_here (b tok s : str) :
  shape_iso tok = true ->
  matches date_iso (Cursor b (tok ++ s)) (Cursor (List.rev tok ++ b) s).
Proof.
  intros H. pose proof (spans_here b tok s) as Hs.
  destruct tok as [|y1 [|y2 [|y3 [|y4 [|s1 [|m1 [|m2 [|s2 [|d1 [|d2 [|]]]]]]]]]]];
    try discriminate H.
  unfold shape_iso in H. rewrite !Bool.andb_true_iff in H.
  destruct H as [[Hd H1] H2]. apply N.eqb_eq in H1, H2. subst s1 s2.
  apply forallb_digits in Hd. unfold digits in Hd.
  change [y1; y2; y3; y4; HYPHEN; m1; m2; HYPHEN; d1; d2]
    with ([y1; y2; y3; y4] ++ [HYPHEN] ++ [m1; m2] ++ [HYPHEN] ++ [d1; d2])
    in Hs.
  apply spans_split in Hs. destruct Hs as (p1 & S1 & Hs).
  apply spans_split in Hs. destruct Hs as (p2 & S2 & Hs).
  apply spans_split in Hs. destruct Hs as (p3 & S3 & Hs).
  apply spans_split in Hs. destruct Hs as (p4 & S4 & S5).
  repeat match goal with
         | H : List.Forall _ (_ :: _) |- _ => inversion H; subst; clear H
         end.
  exists p1. split.
  { apply rep_dec_intro with [y1; y2; y3; y4]; simpl; auto.
    repeat constructor; auto. }
  exists p2. split; [now apply chr_intro|].
  exists p3. split.
  { apply rep_dec_intro with [m1; m2]; simpl; auto. repeat constructor; auto. }
  exists p4. split; [now apply chr_intro|].
  apply rep_dec_intro with [d1; d2]; simpl; auto. repeat constructor; auto.
Qed.

Lemma shape_dmy_matches_here (b tok s : str) :
  shape_dmy tok = true ->
  matches date_dmy (Cursor b (tok ++ s)) (Cursor (List.rev tok ++ b) s).
Proof.
  intros H. pose proof (spans_here b tok s) as Hs.
  destruct tok as [|d1 [|d2 [|s1 [|m1 [|m2 [|s2 y]]]]]]; try discriminate H.
  unfold shape_dmy in H. rewrite !Bool.andb_true_iff in H.
  destruct H as [[[[[Hd H1] H2] Hlo] Hhi] Hy].
  apply Nat.leb_le in Hlo, Hhi.
  apply forallb_digits in Hd, Hy. unfold digits in Hd.
  change (d1 :: d2 :: s1 :: m1 :: m2 :: s2 :: y)
    with ([d1; d2] ++ [s1] ++ [m1; m2] ++ [s2] ++ y) in Hs.
  apply spans_split in Hs. destruct Hs as (p1 & S1 & Hs).
  apply spans_split in Hs. destruct Hs as (p2 & S2 & Hs).
  apply spans_split in Hs. destruct Hs as (p3 & S3 & Hs).
  apply spans_split in Hs. destruct Hs as (p4 & S4 & S5).
  repeat match goal with
         | H : List.Forall _ (_ :: _) |- _ => inversion H; subst; clear H
         end.
  exists p1. split.
  { apply rep_dec_intro with [d1; d2]; simpl; auto. repeat constructor; auto. }
  exists p2. split; [now apply cls_intro with s1|].
  exists p3. split.
  { apply rep_dec_intro with [m1; m2]; simpl; auto. repeat constructor; auto. }
  exists p4. split; [now apply cls_intro with s2|].
  apply rep_dec_intro with y; simpl; auto.
Qed.

Lemma run_cat (a b : regex) (cu : cursor) (k : cursor -> option cursor) :
  run (a @@ b) cu k = run a cu (fun m => run b m k).
Proof. reflexivity. Qed.

Lemma rep_loop_total (step : cursor -> (cursor -> option cursor) -> option cursor)
    (lo : nat) (hi : option nat) (fuel n : nat) (cu : cursor) :
  lo <= n -> rep_loop step lo hi Some fuel n cu <> None.
Proof.
  intros Hlo. apply Nat.leb_le in Hlo.
  destruct fuel; simpl; rewrite Hlo; [discriminate|].
  destruct (if may_repeat n hi then _ else _); discriminate.
Qed.

(** At the end of a pattern a greedy run of digits takes all the digits
    there are, up to its bound. *)
Lemma rep_dec_greedy (lo hi : nat) :
  forall fuel n cu e,
    length (after cu) <= fuel -> n <= hi ->
    rep_loop (run Dec) lo (Some hi) Some fuel n cu = Some e ->
    exists ds,
      digits ds /\ spans cu ds e /\ lo <= n + length ds
      /\ n + length ds <= hi
      /\ (n + length ds = hi \/ no_digit (List.hd_error (after e))).
Proof.
  assert (Hstop : forall n cu e,
             n <= hi ->
             (n = hi \/ no_digit (List.hd_error (after cu))) ->
             (if lo <=? n then Some cu else None) = Some e ->
             exists ds,
               digits ds /\ spans cu ds e /\ lo <= n + length ds
               /\ n + length ds <= hi
               /\ (n + length ds = hi \/ no_digit (List.hd_error (after e)))).
  { intros n cu e Hn Hend H. destruct (lo <=? n) eqn:Hlo; [|discriminate].
    injection H as <-. apply Nat.leb_le in Hlo. exists [].
    simpl. rewrite Nat.add_0_r.
    repeat split; auto; constructor. }
  induction fuel as [|fuel IH]; intros n cu e Hfuel Hn; rewrite rep_loop_eq_gen.
  - apply Hstop; [exact Hn|]. right.
    destruct (after cu); [exact I|simpl in Hfuel; lia].
  - unfold may_repeat. destruct (n <? hi) eqn:Hlt.
    + apply Nat.ltb_lt in Hlt.
      change (run Dec cu) with (eat is_decimal cu). unfold eat.
      destruct (after cu) as [|c s] eqn:Hs.
      * apply Hstop; [exact Hn|]. right. rewrite Hs. exact I.
      * destruct (is_decimal c) eqn:Hc.
        -- cbn [after length].
           assert (Hlen : (length s <? S (length s)) = true)
             by (apply Nat.ltb_lt; lia).
           rewrite Hlen.
           destruct (rep_loop (run Dec) lo (Some hi) Some fuel (S n)
                       (Cursor (c :: before cu) s)) as [e'|] eqn:Hmore;
             cbn beta iota.
           ++ intros H. injection H as <-.
              apply IH in Hmore; [|simpl in *; lia|lia].
              destruct Hmore as (ds & Hds & Hsp & Hlo & Hhi & Hend).
              exists (c :: ds). split; [now constructor|].
              split.
              { apply (spans_app _ (Cursor (c :: before cu) s) _ [c] ds);
                  [|exact Hsp].
                split; simpl; auto. }
              simpl. rewrite Nat.add_succ_r. auto.
           ++ destruct (lo <=? n) eqn:Hlo; [|discriminate].
              apply Nat.leb_le in Hlo. exfalso.
              revert Hmore. apply rep_loop_total. lia.
        -- apply Hstop; [exact Hn|]. right. rewrite Hs. exact Hc.
    + apply Nat.ltb_ge in Hlt. apply Hstop; [exact Hn|]. left. lia.
Qed.

Lemma take_digits_run (ds : str) :
  digits ds ->
  forall n rest,
    length ds <= n ->
    (length ds = n \/ no_digit (List.hd_error rest)) ->
    take_digits n (ds ++ rest) = ds.
Proof.
  induction 1 as [|c ds Hc _ IH]; intros n rest Hlen Hend; simpl in *.
  - destruct n as [|n]; [reflexivity|].
    destruct rest as [|c rest]; [reflexivity|].
    destruct Hend as [Hend | Hend]; [discriminate|].
    simpl in *. now rewrite Hend.
  - destruct n as [|n]; [lia|]. simpl. rewrite Hc. f_equal.
    apply IH; [lia|]. destruct Hend as [Hend | Hend]; [left; lia|now right].
Qed.

Lemma take_digits_prefix (n : nat) (s : str) :
  exists rest, s = take_digits n s ++ rest.
Proof.
  revert s. induction n as [|n IH]; intros s; simpl.
  - exists s. now destruct s.
  - destruct s as [|c s]; [now exists []|].
    destruct (is_decimal c); [|now exists (c :: s)].
    destruct (IH s) as (rest & Hrest). exists rest. simpl. now f_equal.
Qed.

Lemma skipn_spans (cu e : cursor) (tok : str) :
  spans cu tok e -> List.skipn (length tok) (after cu) = after e.
Proof.
  intros [Ha _]. rewrite Ha. clear Ha.
  induction tok as [|c tok IH]; simpl; auto.
Qed.

(** Where the matcher finds shape (a), it is the string of shape (a) that
    starts there, and where it finds nothing, none starts there. *)
Lemma match_at_iso (cu : cursor) :
  match match_at date_iso cu with
  | Some e => exists tok, iso_at (after cu) = Some tok /\ spans cu tok e
                          /\ tok <> []
  | None => iso_at (after cu) = None
  end.
Proof.
  destruct (match_at date_iso cu) as [e|] eqn:Hm.
  - apply match_at_sound, date_iso_inv in Hm.
    destruct Hm as (y1 & y2 & y3 & y4 & m1 & m2 & d1 & d2 & Hd & Hs).
    eexists. split; [|split; [exact Hs|discriminate]].
    unfold iso_at. destruct Hs as [-> _]. cbn [List.firstn app].
    unfold shape_iso. now rewrite (digits_forallb _ Hd).
  - unfold iso_at. cbv zeta.
    destruct (shape_iso (List.firstn 10 (after cu))) eqn:Hshape;
      [|reflexivity].
    exfalso.
    apply (shape_iso_matches_here (before cu) _
             (List.skipn 10 (after cu))) in Hshape.
    rewrite List.firstn_skipn in Hshape. destruct cu as [b s].
    now apply match_at_complete in Hshape.
Qed.

(** The same for shape (b): the matcher finds the longest string of shape
    (b) that starts there. *)
Lemma match_at_dmy (cu : cursor) :
  match match_at date_dmy cu with
  | Some e => exists tok, dmy_at (after cu) = Some tok /\ spans cu tok e
                          /\ tok <> []
  | None => dmy_at (after cu) = None
  end.
Proof.
  destruct (match_at date_dmy cu) as [e|] eqn:Hm.
  - unfold match_at, date_dmy in Hm.
    rewrite run_cat in Hm. apply run_sound in Hm.
    destruct Hm as (p1 & H1 & Hm).
    rewrite run_cat in Hm. apply run_sound in Hm.
    destruct Hm as (p2 & H2 & Hm).
    rewrite run_cat in Hm. apply run_sound in Hm.
    destruct Hm as (p3 & H3 & Hm).
    rewrite run_cat in Hm. apply run_sound in Hm.
    destruct Hm as (p4 & H4 & Hm).
    rewrite run_rep in Hm.
    apply rep_dec_greedy in Hm; [|lia|lia].
    destruct Hm as (ys & Hys & Sys & Hlo & Hhi & Hend).
    apply exactly_dec_inv in H1, H3. apply consumes_spans in H2, H4.
    destruct H1 as (ds & Hds & Lds & Sds).
    destruct H2 as (s1 & Hs1 & Ss1).
    destruct H3 as (ms & Hms & Lms & Sms).
    destruct H4 as (s2 & Hs2 & Ss2).
    destruct ds as [|d1 [|d2 [|]]]; try discriminate Lds.
    destruct ms as [|m1 [|m2 [|]]]; try discriminate Lms.
    assert (Hs : spans cu ([d1; d2] ++ [s1] ++ [m1; m2] ++ [s2] ++ ys) e).
    { apply (spans_app _ _ _ _ _ Sds). apply (spans_app _ _ _ _ _ Ss1).
      apply (spans_app _ _ _ _ _ Sms). apply (spans_app _ _ _ _ _ Ss2).
      exact Sys. }
    exists ([d1; d2] ++ [s1] ++ [m1; m2] ++ [s2] ++ ys).
    split; [|split; [exact Hs|discriminate]].
    destruct Hs as [-> _]. cbn [app]. unfold dmy_at. cbv zeta.
    rewrite (take_digits_run ys Hys 4 (after e)) by (simpl in *; auto; lia).
    cbn [app shape_dmy].
    assert (Hf : List.forallb is_decimal [d1; d2; m1; m2] = true).
    { apply digits_forallb. unfold digits in *.
      inversion Hds as [|? ? ? Hds']; inversion Hds'; subst.
      inversion Hms as [|? ? ? Hms']; inversion Hms'; subst.
      repeat constructor; assumption. }
    rewrite Hf, Hs1, Hs2, (digits_forallb _ Hys).
    simpl in Hlo, Hhi. apply Nat.leb_le in Hlo, Hhi. now rewrite Hlo, Hhi.
  - unfold dmy_at.
    destruct (after cu) as [|d1 [|d2 [|s1 [|m1 [|m2 [|s2 rest]]]]]] eqn:Hs;
      try reflexivity.
    cbv zeta.
    destruct (shape_dmy ([d1; d2; s1; m1; m2; s2] ++ take_digits 4 rest))
      eqn:Hshape; [|reflexivity].
    exfalso. destruct (take_digits_prefix 4 rest) as (rest' & Hrest).
    apply (shape_dmy_matches_here (before cu) _ rest') in Hshape.
    rewrite <- List.app_assoc, <- Hrest in Hshape. cbn [app] in Hshape.
    rewrite <- Hs in Hshape. destruct cu as [b s].
    now apply match_at_complete in Hshape.
Qed.

(** When the matcher agrees at every position with [at_], the scan returns
    all the matches that [at_] describes. *)
Lemma scan_all_matches (r : regex) (at_ : str -> option str) :
  (forall cu,
     match match_at r cu with
     | Some e => exists tok, at_ (after cu) = Some tok /\ spans cu tok e
                             /\ tok <> []
     | None => at_ (after cu) = None
     end) ->
  forall fuel cu, scan fuel r cu = matches_from at_ fuel (after cu).
Proof.
  intros Hat. induction fuel as [|fuel IH]; intros cu; simpl; [reflexivity|].
  specialize (Hat cu). destruct (match_at r cu) as [e|].
  - destruct Hat as (tok & -> & Hs & Hne).
    rewrite (spans_matched _ _ _ Hs), (skipn_spans _ _ _ Hs). f_equal.
    pose proof (spans_length _ _ _ Hs) as Hlen.
    assert (Hlt : (length (after e) <? length (after cu)) = true).
    { apply Nat.ltb_lt. destruct tok; [congruence|simpl in Hlen; lia]. }
    rewrite Hlt. apply IH.
  - rewrite Hat. unfold advance. destruct cu as [b [|c s]]; simpl;
      [reflexivity|apply IH].
Qed.

Lemma findall_iso_all (text : str) :
  findall date_iso text = all_matches iso_at text.
Proof. apply (scan_all_matches date_iso iso_at match_at_iso). Qed.

Lemma findall_dmy_all (text : str) :
  findall date_dmy text = all_matches dmy_at text.
Proof. apply (scan_all_matches date_dmy dmy_at match_at_dmy). Qed.

End ScanReference.

(** ** The properties of the specification *)

Section Properties.

Context {U : UnicodeDB}.

Import OCREngine.

(** C1, the code on the empty text: [extract_vendor] returns the empty
    string there, which is not the sentinel "Unknown Vendor", and the invoice
    and receipt results carry that empty string as vendor and merchant.
    [str.split] always returns a piece, so the test [if lines] never fails. *)
Theorem extract_vendor_empty_text :
  extract_vendor [] = []
  /\ InvoiceParser.vendor (InvoiceParser.build []) = []
  /\ ReceiptParser.merchant (ReceiptParser.build []) = []
  /\ List.length (extract_vendor []) <> List.length (py "Unknown Vendor").
Proof. repeat split. discriminate. Qed.

(** C2, as amended: for every text the invoice and the receipt parser set
    the primary date to the first element of the dates sequence, and to
    [None] when the sequence is empty; [analyze_invoice_data] of app.py sets
    it to the first match of its date pattern, and to the placeholder
    "Not detected" when there is none. *)
Theorem primary_date_selection (text : str) :
  InvoiceParser.invoice_date (InvoiceParser.build text)
  = List.hd_error (extract_dates text)
  /\ ReceiptParser.purchase_date (ReceiptParser.build text)
     = List.hd_error (extract_dates text)
  /\ App.invoice_date (App.analyze_invoice_data text)
     = Some (List.hd (py "Not detected") (findall App.date_pattern text)).
Proof.
  repeat split.
  - apply first_or_none.
  - apply first_or_none.
  - unfold App.analyze_invoice_data. simpl.
    now destruct (findall App.date_pattern text).
Qed.

(** C3: for every text the primary amount of the invoice and of the receipt
    is the last element of the amounts sequence, and the literal "0.00" when
    the sequence is empty; it is a string of at least four characters, so
    the field is always populated. *)
Theorem primary_amount_selection (text : str) :
  InvoiceParser.total_amount (InvoiceParser.build text)
  = List.last (extract_amounts text) (py "0.00")
  /\ ReceiptParser.total (ReceiptParser.build text)
     = List.last (extract_amounts text) (py "0.00")
  /\ 4 <= length (List.last (extract_amounts text) (py "0.00")).
Proof.
  repeat split; try apply last_or_default.
  destruct (extract_amounts text) as [|a l] eqn:Ha; [simpl; lia|].
  assert (Hin : List.In (List.last (a :: l) (py "0.00")) (extract_amounts text)).
  { rewrite Ha. apply last_in. discriminate. }
  pose proof (extract_amounts_bounded text) as Hall.
  rewrite List.Forall_forall in Hall.
  apply Hall in Hin. destruct Hin as [Hshape _].
  now apply shape_amount_length.
Qed.

(** C4: for every pair of candidate lists the invoice confidence is 0.5,
    plus 0.25 when the date list is not empty, plus 0.25 when the amount
    list is not empty, capped at 1.0; it lies between 0.5 and 1.0, and the
    invoice result carries it for the lists extracted from the text. *)
Theorem invoice_confidence (dates amounts : list str) :
  InvoiceParser._calculate_confidence dates amounts
  = InvoiceParser.py_min
      (0.5 + (if truthy dates then 0.25 else 0)
           + (if truthy amounts then 0.25 else 0))%float 1.0%float
  /\ InvoiceParser._calculate_confidence dates amounts
     = (match truthy dates, truthy amounts with
        | false, false => 0.5
        | true, true => 1.0
        | _, _ => 0.75
        end)%float
  /\ (0.5 <=? InvoiceParser._calculate_confidence dates amounts)%float = true
  /\ (InvoiceParser._calculate_confidence dates amounts <=? 1.0)%float = true
  /\ forall text,
       InvoiceParser.confidence (InvoiceParser.build text)
       = InvoiceParser._calculate_confidence (extract_dates text)
                                             (extract_amounts text).
Proof.
  destruct dates, amounts; repeat split; reflexivity.
Qed.

(** C5: for every text the receipt confidence is 0.8 when the date list and
    the amount list are both non-empty and 0.5 otherwise; it takes no other
    value. *)
Theorem receipt_confidence (text : str) :
  ReceiptParser.confidence (ReceiptParser.build text)
  = (if (0 <? length (extract_dates text)) && (0 <? length (extract_amounts text))
     then 0x1.999999999999ap-1%float else 0.5%float)
  /\ (ReceiptParser.confidence (ReceiptParser.build text) = 0.5%float
      \/ ReceiptParser.confidence (ReceiptParser.build text)
         = 0x1.999999999999ap-1%float).
Proof.
  unfold ReceiptParser.build. simpl.
  destruct (extract_dates text), (extract_amounts text); simpl; auto.
Qed.

(** C6: for every text [extract_dates] returns all the matches of shape (a)
    over the whole text followed by all the matches of shape (b) over the
    whole text: its first part is the list of the strings of shape (a) met
    from left to right through the text (the search going on after each
    one), its second part the same list for shape (b), the longest string
    of the shape being taken at each place.  So every element of the first
    part has shape (a), every element of the second part shape (b), and the
    first part stands before the second wherever the dates stand in the
    text. *)
Theorem extract_dates_iso_then_dmy (text : str) :
  extract_dates text = findall date_iso text ++ findall date_dmy text
  /\ List.Forall (fun tok => shape_iso tok = true) (findall date_iso text)
  /\ List.Forall (fun tok => shape_dmy tok = true) (findall date_dmy text)
  /\ findall date_iso text = all_matches iso_at text
  /\ findall date_dmy text = all_matches dmy_at text
  /\ extract_dates text = all_matches iso_at text ++ all_matches dmy_at text.
Proof.
  split; [apply extract_dates_eq|].
  split; [apply findall_date_iso_shape|].
  split; [apply findall_date_dmy_shape|].
  split; [apply findall_iso_all|].
  split; [apply findall_dmy_all|].
  rewrite extract_dates_eq. now rewrite findall_iso_all, findall_dmy_all.
Qed.

(** C7: for every text, every token that [extract_amounts] returns has the
    amount shape (one to three digits, groups of a comma and three digits, a
    decimal point, two digits) and stands in the text between token
    boundaries: no word character, so no digit, comes directly before or
    after it. *)
Theorem extract_amounts_shape_and_boundaries (text : str) :
  List.Forall (fun tok => shape_amount tok /\ bounded_in text tok)
              (extract_amounts text).
Proof. apply extract_amounts_bounded. Qed.

(** C8: when the stripped first line of the stripped text is longer than
    100 characters, [extract_vendor] returns its first 100 characters
    followed by the three characters "...", 103 characters in all; a line of
    at most 100 characters is returned as it is. *)
Theorem extract_vendor_truncation (text : str) :
  let line := strip (List.hd [] (split NEWLINE (strip text))) in
  (100 < length line ->
   extract_vendor text = List.firstn 100 line ++ py "..."
   /\ length (extract_vendor text) = 103)
  /\ (length line <= 100 -> extract_vendor text = line).
Proof.
  intros line. rewrite extract_vendor_eq. fold line. cbv zeta. split.
  - intros Hlen. apply Nat.ltb_lt in Hlen as Hb. rewrite Hb.
    split; [reflexivity|].
    rewrite List.length_app, List.firstn_length_le by lia. reflexivity.
  - intros Hlen. apply Nat.ltb_ge in Hlen. now rewrite Hlen.
Qed.

(** C9: a parse call raises exactly when the acquisition of the text
    raises, with the same exception and without a result record; when the
    text is acquired the call returns the record built from it.  The
    extraction operations are total: [split] always yields a first line,
    and a pattern that matches nowhere yields the empty list. *)
Theorem parse_raises_with_acquisition (pdfplumber_open : str -> document)
    (file_path : str) :
  match extract_text_from_pdf pdfplumber_open file_path with
  | Returned text =>
      InvoiceParser.parse pdfplumber_open file_path
      = Returned (InvoiceParser.build text)
      /\ ReceiptParser.parse pdfplumber_open file_path
         = Returned (ReceiptParser.build text)
  | Raised e =>
      InvoiceParser.parse pdfplumber_open file_path = Raised e
      /\ ReceiptParser.parse pdfplumber_open file_path = Raised e
  end
  /\ (forall text, split NEWLINE (strip text) <> [])
  /\ (forall r text,
        (forall st e, text_of st = text -> ~ matches r st e) ->
        findall r text = []).
Proof.
  split; [|split].
  - unfold InvoiceParser.parse, ReceiptParser.parse.
    destruct (extract_text_from_pdf pdfplumber_open file_path); split;
      reflexivity.
  - intros text. apply split_nonempty.
  - apply findall_no_match.
Qed.


End Properties.

(** ** Scenarios *)

(** A text given by its lines, each ended by a newline. *)
Definition text_of_lines (ls : list string) : str :=
  List.concat (List.map (fun l => py l ++ [NEWLINE]) ls).

Definition scenario_a : str :=
  text_of_lines ["Acme Corp"; "Invoice #123"; "Date: 2024-03-15";
                 "Subtotal: 100.00"; "Total: 1,200.50"]%string.

Definition scenario_c : str :=
  text_of_lines ["StoreX"; "15/03/2024"; "Item 5.00"; "Item 3.00";
                 "Total 8.00"]%string.

Section Scenarios.

Context {U : UnicodeDB}.

Import OCREngine.

Example scenario_a_invoice :
  InvoiceParser.build scenario_a =
  {| InvoiceParser.document_type := py "invoice";
     InvoiceParser.vendor := py "Acme Corp";
     InvoiceParser.invoice_date := Some (py "2024-03-15");
     InvoiceParser.total_amount := py "1,200.50";
     InvoiceParser.detected_amounts := [py "100.00"; py "1,200.50"];
     InvoiceParser.detected_dates := [py "2024-03-15"; py "24-03-15"];
     InvoiceParser.confidence := 1.0%float;
     InvoiceParser.raw_text_length := 73 |}.
Proof. vm_compute. reflexivity. Qed.

Example scenario_b_invoice :
  InvoiceParser.build [] =
  {| InvoiceParser.document_type := py "invoice";
     InvoiceParser.vendor := [];
     InvoiceParser.invoice_date := None;
     InvoiceParser.total_amount := py "0.00";
     InvoiceParser.detected_amounts := [];
     InvoiceParser.detected_dates := [];
     InvoiceParser.confidence := 0.5%float;
     InvoiceParser.raw_text_length := 0 |}.
Proof. vm_compute. reflexivity. Qed.

Example scenario_c_receipt :
  ReceiptParser.build scenario_c =
  {| ReceiptParser.document_type := py "receipt";
     ReceiptParser.merchant := py "StoreX";
     ReceiptParser.purchase_date := Some (py "15/03/2024");
     ReceiptParser.total := py "8.00";
     ReceiptParser.items_detected := 3;
     ReceiptParser.confidence := 0x1.999999999999ap-1%float |}.
Proof. vm_compute. reflexivity. Qed.

(** The date of shape (b) stands first in the text and last but one in the
    list. *)
Example dates_not_merged_by_position :
  extract_dates (py "01/02/2003 2024-03-15")
  = [py "2024-03-15"; py "01/02/2003"; py "24-03-15"].
Proof. vm_compute. reflexivity. Qed.

(** All the matches of each shape, found without the matcher: the year of
    shape (b) takes up to four digits, and a match of shape (b) begins two
    characters into each date of shape (a). *)
Example all_matches_of_both_shapes :
  all_matches iso_at (py "01/02/2003 2024-03-15 1-2-3 07-08-123456")
  = [py "2024-03-15"]
  /\ all_matches dmy_at (py "01/02/2003 2024-03-15 1-2-3 07-08-123456")
     = [py "01/02/2003"; py "24-03-15"; py "07-08-1234"]
  /\ extract_dates (py "01/02/2003 2024-03-15 1-2-3 07-08-123456")
     = [py "2024-03-15"; py "01/02/2003"; py "24-03-15"; py "07-08-1234"].
Proof. vm_compute. repeat split. Qed.

Example iso_date_duplicate :
  extract_dates (py "2024-03-15") = [py "2024-03-15"; py "24-03-15"]
  /\ InvoiceParser.detected_dates (InvoiceParser.build (py "2024-03-15"))
     = [py "2024-03-15"; py "24-03-15"].
Proof. vm_compute. split; reflexivity. Qed.

(** Digit runs longer than the amount shape allows give no token; a token
    next to a letter or an underscore is not returned. *)
Example amounts_respect_boundaries :
  extract_amounts (py "1234.56 12.345 x1.23 1.23_ 1234,567.89 1,234.50 7.00")
  = [py "567.89"; py "1,234.50"; py "7.00"].
Proof. vm_compute. reflexivity. Qed.

Example vendor_of_blank_text :
  extract_vendor (py "   ") = [] /\ extract_vendor (NEWLINE :: py " Acme ") = py "Acme".
Proof. vm_compute. split; reflexivity. Qed.

(** The analysis function of app.py on the empty text. *)
Example app_on_empty_text :
  App.analyze_invoice_data [] =
  {| App.vendor := py "Unknown Vendor";
     App.invoice_date := Some (py "Not detected");
     App.total_amount := py "0.00" |}.
Proof. vm_compute. reflexivity. Qed.

End Scenarios.

(** ** Instances at concrete inputs *)

(** A line of 150 letters A after two spaces, and a second line. *)
Definition long_vendor_text : str :=
  py "  " ++ List.repeat 65%N 150 ++ [NEWLINE] ++ py "Invoice".

(** A document whose second page cannot be read, and one with two pages and
    an empty page between them. *)
Definition broken_source (path : str) : OCREngine.document :=
  Returned [Returned (Some (py "Acme")); Raised (py "bad page")].

Definition good_source (path : str) : OCREngine.document :=
  Returned [Returned (Some (py "Acme")); Returned None;
            Returned (Some (py "Total 7.00"))].

(** C2, against the claim as stated: on the empty text no date candidate is
    found and [analyze_invoice_data] fills [invoice_date] with the
    placeholder string "Not detected" instead of [None]. *)
Lemma app_date_placeholder :
  findall (U := sample_db) App.date_pattern [] = []
  /\ App.invoice_date (App.analyze_invoice_data (U := sample_db) [])
     = Some (py "Not detected")
  /\ App.invoice_date (App.analyze_invoice_data (U := sample_db) []) <> None.
Proof. repeat split. discriminate. Qed.

Lemma extract_vendor_truncation_witness :
  length (OCREngine.extract_vendor (U := sample_db) long_vendor_text) = 103
  /\ OCREngine.extract_vendor (U := sample_db) scenario_a = py "Acme Corp".
Proof.
  split.
  - destruct (@extract_vendor_truncation sample_db long_vendor_text)
      as [Hlong _].
    apply Hlong. apply Nat.ltb_lt. vm_compute. reflexivity.
  - destruct (@extract_vendor_truncation sample_db scenario_a) as [_ Hshort].
    rewrite Hshort; [vm_compute; reflexivity|].
    apply Nat.leb_le. vm_compute. reflexivity.
Defined.

Lemma parse_raises_with_acquisition_witness :
  InvoiceParser.parse (U := sample_db) broken_source (py "a.pdf")
  = Raised (py "Failed to extract text from PDF: bad page")
  /\ InvoiceParser.parse (U := sample_db) good_source (py "a.pdf")
     = Returned (InvoiceParser.build (U := sample_db)
                   (text_of_lines ["Acme"; "Total 7.00"]%string))
  /\ findall (U := sample_db) OCREngine.date_iso (py "no date") = [].
Proof.
  split; [|split].
  - exact (proj1 (proj1 (@parse_raises_with_acquisition sample_db
                           broken_source (py "a.pdf")))).
  - exact (proj1 (proj1 (@parse_raises_with_acquisition sample_db
                           good_source (py "a.pdf")))).
  - apply (proj2 (proj2 (@parse_raises_with_acquisition sample_db
                           broken_source (py "a.pdf")))).
    intros st e Ht Hm. apply date_iso_inv in Hm.
    destruct Hm as (y1 & y2 & y3 & y4 & m1 & m2 & d1 & d2 & _ & Hs).
    apply spans_in_text in Hs. rewrite Ht in Hs.
    apply (f_equal (@length char)) in Hs.
    rewrite !List.length_app in Hs. simpl in Hs. lia.
Defined.


(** ** Further properties of the extraction operations *)

Section StripFacts.

Context {U : UnicodeDB}.

Import OCREngine.

Lemma lstrip_head (s r : str) (c : char) :
  lstrip s = c :: r -> is_space c = false.
Proof.
  induction s as [|a s IH]; simpl; [discriminate|].
  destruct (is_space a) eqn:Ha; [exact IH|].
  intros H. injection H as <- _. exact Ha.
Qed.

Lemma lstrip_fixed (c : char) (r : str) :
  is_space c = false -> lstrip (c :: r) = c :: r.
Proof. intros H. simpl. now rewrite H. Qed.

Lemma lstrip_incl (s : str) (c : char) : List.In c (lstrip s) -> List.In c s.
Proof.
  induction s as [|a s IH]; simpl; [trivial|].
  destruct (is_space a); simpl; auto.
Qed.

Lemma lstrip_blank_app (ws s : str) :
  List.forallb is_space ws = true -> lstrip (ws ++ s) = lstrip s.
Proof.
  induction ws as [|a ws IH]; simpl; [reflexivity|].
  intros H. apply andb_prop in H. destruct H as [Ha Hws]. rewrite Ha. auto.
Qed.

(** A text is white space followed by its left-stripped form. *)
Lemma lstrip_decompose (s : str) :
  exists ws, List.forallb is_space ws = true /\ s = ws ++ lstrip s.
Proof.
  induction s as [|a s (ws & Hws & Hs)]; simpl.
  - exists []. auto.
  - destruct (is_space a) eqn:Ha.
    + exists (a :: ws). simpl. rewrite Ha, Hws. split; [reflexivity|].
      now f_equal.
    + exists []. auto.
Qed.

Lemma lstrip_nil_blank (s : str) :
  lstrip s = [] -> List.forallb is_space s = true.
Proof.
  intros H. destruct (lstrip_decompose s) as (ws & Hws & Hs).
  rewrite H, List.app_nil_r in Hs. now subst.
Qed.

Lemma lstrip_app_nonblank (s t : str) :
  lstrip s <> [] -> lstrip (s ++ t) = lstrip s ++ t.
Proof.
  intros Hne. destruct (lstrip_decompose s) as (ws & Hws & Hs).
  destruct (lstrip s) as [|c r] eqn:Hl; [congruence|].
  rewrite Hs at 1. rewrite <- List.app_assoc, (lstrip_blank_app _ _ Hws).
  apply lstrip_head in Hl. simpl. now rewrite Hl.
Qed.

Lemma forallb_rev (p : char -> bool) (s : str) :
  List.forallb p (List.rev s) = List.forallb p s.
Proof.
  induction s as [|a s IH]; simpl; [reflexivity|].
  rewrite List.forallb_app, IH. simpl. rewrite Bool.andb_true_r.
  apply Bool.andb_comm.
Qed.

Lemma rstrip_cons_nonspace (c : char) (s : str) :
  is_space c = false -> rstrip (c :: s) = c :: rstrip s.
Proof.
  intros Hc. unfold rstrip. simpl.
  destruct (lstrip (List.rev s)) as [|a r] eqn:Hl.
  - apply lstrip_nil_blank in Hl.
    rewrite (lstrip_blank_app _ [c] Hl), (lstrip_fixed _ _ Hc). reflexivity.
  - rewrite lstrip_app_nonblank by (rewrite Hl; discriminate).
    rewrite Hl, List.rev_app_distr. reflexivity.
Qed.

Lemma rstrip_incl (s : str) (c : char) : List.In c (rstrip s) -> List.In c s.
Proof.
  unfold rstrip. intros H. apply List.in_rev in H. apply lstrip_incl in H.
  now apply List.in_rev.
Qed.

Lemma rstrip_app_blank (s ws : str) :
  List.forallb is_space ws = true -> rstrip (s ++ ws) = rstrip s.
Proof.
  intros H. unfold rstrip. rewrite List.rev_app_distr.
  rewrite lstrip_blank_app; [reflexivity|]. now rewrite forallb_rev.
Qed.

Lemma rstrip_idem (s : str) : rstrip (rstrip s) = rstrip s.
Proof.
  unfold rstrip. rewrite List.rev_involutive. f_equal.
  destruct (lstrip (List.rev s)) as [|c r] eqn:Hl; [reflexivity|].
  apply lstrip_head in Hl. now apply lstrip_fixed.
Qed.

Lemma strip_incl (s : str) (c : char) : List.In c (strip s) -> List.In c s.
Proof. intros H. apply lstrip_incl. now apply rstrip_incl. Qed.

Lemma strip_head (s r : str) (c : char) :
  strip s = c :: r -> is_space c = false.
Proof.
  unfold strip. destruct (lstrip s) as [|a l] eqn:Hl; [discriminate|].
  apply lstrip_head in Hl. rewrite (rstrip_cons_nonspace _ _ Hl).
  intros H. injection H as <- _. exact Hl.
Qed.

Lemma strip_last (s : str) (c : char) :
  last_error (strip s) = Some c -> is_space c = false.
Proof.
  unfold last_error, strip, rstrip. rewrite List.rev_involutive.
  destruct (lstrip (List.rev (lstrip s))) as [|a l] eqn:Hl; [discriminate|].
  simpl. intros H. injection H as <-. now apply lstrip_head in Hl.
Qed.

Lemma strip_blank (s : str) :
  List.forallb is_space s = true -> strip s = [].
Proof. intros H. unfold strip. now rewrite (lstrip_blank _ H). Qed.

Lemma strip_nonblank (s : str) :
  List.forallb is_space s = false ->
  exists c r, strip s = c :: r /\ is_space c = false.
Proof.
  intros H. unfold strip. destruct (lstrip s) as [|c l] eqn:Hl.
  - apply lstrip_nil_blank in Hl. congruence.
  - apply lstrip_head in Hl. rewrite (rstrip_cons_nonspace _ _ Hl). eauto.
Qed.

(** White space around a text does not change its stripped form. *)
Lemma strip_surrounded (ws1 s ws2 : str) :
  List.forallb is_space ws1 = true -> List.forallb is_space ws2 = true ->
  strip (ws1 ++ s ++ ws2) = strip s.
Proof.
  intros H1 H2. unfold strip. rewrite (lstrip_blank_app _ _ H1).
  destruct (lstrip s) as [|c l] eqn:Hl.
  - apply lstrip_nil_blank in Hl.
    rewrite lstrip_blank_app by exact Hl. now rewrite (lstrip_blank _ H2).
  - rewrite lstrip_app_nonblank by (rewrite Hl; discriminate).
    rewrite Hl. now apply rstrip_app_blank.
Qed.

Lemma strip_idem (s : str) : strip (strip s) = strip s.
Proof.
  unfold strip at 1. destruct (strip s) as [|c r] eqn:Hs; [reflexivity|].
  apply strip_head in Hs as Hc. rewrite (lstrip_fixed _ _ Hc), <- Hs.
  unfold strip. apply rstrip_idem.
Qed.

(** The pieces of [split] do not contain the separator, and joined by the
    separator they give the text back. *)
Lemma split_no_sep (sep : char) (s : str) :
  List.Forall (fun piece => ~ List.In sep piece) (split sep s).
Proof.
  induction s as [|c s IH]; simpl.
  - constructor; [tauto|constructor].
  - destruct (c =? sep)%N eqn:Hc.
    + constructor; [tauto|exact IH].
    + destruct (split sep s) as [|piece pieces]; [repeat constructor|].
      * simpl. intros [H|[]]. subst. now rewrite N.eqb_refl in Hc.
      * inversion IH as [|? ? Hp Hps]; subst. constructor; [|exact Hps].
        simpl. intros [H|H]; [|tauto]. subst. now rewrite N.eqb_refl in Hc.
Qed.

Lemma split_join (sep : char) (s : str) :
  s = List.hd [] (split sep s)
      ++ List.concat (List.map (cons sep) (List.tl (split sep s))).
Proof.
  induction s as [|c s IH]; simpl; [reflexivity|].
  destruct (c =? sep)%N eqn:Hc.
  - apply N.eqb_eq in Hc. subst c. simpl.
    destruct (split sep s) as [|piece pieces] eqn:Hs.
    + now apply split_nonempty in Hs.
    + simpl in *. now rewrite IH at 1.
  - destruct (split sep s) as [|piece pieces] eqn:Hs.
    + now apply split_nonempty in Hs.
    + simpl in *. now rewrite IH at 1.
Qed.

Lemma split_cons_head (sep c : char) (s : str) :
  (c =? sep)%N = false ->
  exists piece, List.hd [] (split sep (c :: s)) = c :: piece.
Proof.
  intros Hc. simpl. rewrite Hc. destruct (split sep s); simpl; eauto.
Qed.

End StripFacts.

Section ScanOrder.

Context {U : UnicodeDB}.

Lemma in_order_weaken (toks : list str) (c : char) (s : str) :
  in_order toks s -> in_order toks (c :: s).
Proof.
  destruct toks as [|tok rest]; simpl; [trivial|].
  intros (gap & s' & -> & H). exists (c :: gap), s'. auto.
Qed.

Lemma in_order_advance (r : regex) (fuel : nat) (cu : cursor) :
  (forall cu', in_order (scan fuel r cu') (after cu')) ->
  in_order (match advance cu with
            | Some cu' => scan fuel r cu'
            | None => []
            end) (after cu).
Proof.
  intros IH. unfold advance. destruct cu as [b [|c s]]; simpl; [trivial|].
  apply in_order_weaken. exact (IH (Cursor (c :: b) s)).
Qed.

(** The strings [findall] returns stand in the text from left to right and
    do not overlap. *)
Lemma scan_in_order (r : regex) :
  forall fuel cu, in_order (scan fuel r cu) (after cu).
Proof.
  induction fuel as [|fuel IH]; intros cu; simpl; [trivial|].
  destruct (match_at r cu) as [e|] eqn:Hm; [|now apply in_order_advance].
  apply match_at_sound in Hm.
  destruct (matches_spans r _ _ Hm) as (t & Hs).
  rewrite (spans_matched _ _ _ Hs).
  destruct (length (after e) <? length (after cu)) eqn:Hlt.
  - exists [], (after e). split; [apply Hs|apply IH].
  - apply Nat.ltb_ge in Hlt. pose proof (spans_length _ _ _ Hs) as Hlen.
    assert (Ht : t = []) by (destruct t; [reflexivity|simpl in Hlen; lia]).
    subst t. exists [], (after cu). split; [reflexivity|].
    now apply in_order_advance.
Qed.

Lemma findall_in_order (r : regex) (text : str) :
  in_order (findall r text) text.
Proof. exact (scan_in_order r (S (length text)) (Cursor [] text)). Qed.

Lemma in_order_count (k : nat) (toks : list str) :
  List.Forall (fun tok => k <= length tok) toks ->
  forall s, in_order toks s -> k * length toks <= length s.
Proof.
  induction 1 as [|tok rest Htok _ IH]; intros s; simpl; [lia|].
  intros (gap & s' & -> & H). apply IH in H.
  rewrite !List.length_app. lia.
Qed.

End ScanOrder.

Section MoreProperties.

Context {U : UnicodeDB}.

Import OCREngine.

Lemma firstn_incl (n : nat) (s : str) (c : char) :
  List.In c (List.firstn n s) -> List.In c s.
Proof.
  revert s. induction n as [|n IH]; intros [|a s]; simpl; try tauto.
  intros [H | H]; auto.
Qed.

Lemma read_pages_closed (texts : list (option str)) :
  forall acc,
    read_pages (List.map Returned texts) acc
    = Returned (acc ++ List.concat (List.map page_line texts)).
Proof.
  induction texts as [|o texts IH]; intros acc; simpl.
  - now rewrite List.app_nil_r.
  - rewrite IH. destruct o as [[|c t]|]; cbn [truthy page_line]; f_equal;
      rewrite <- ?List.app_assoc; reflexivity.
Qed.

Lemma read_pages_raised (pages : list page) :
  forall acc e, read_pages pages acc = Raised e -> List.In (Raised e) pages.
Proof.
  induction pages as [|p pages IH]; intros acc e; simpl; [discriminate|].
  destruct p as [o|e']; simpl.
  - intros H. right. now apply IH in H.
  - intros H. injection H as ->. now left.
Qed.

Lemma read_pages_raises (pages : list page) (e : str) :
  List.In (Raised e) pages ->
  forall acc, exists e', read_pages pages acc = Raised e'.
Proof.
  induction pages as [|p pages IH]; simpl; [contradiction|].
  intros [-> | Hin] acc; simpl; [eauto|].
  destruct p as [o|e']; simpl; eauto.
Qed.

(** X1. When [pdfplumber] opens the document and reads every page, the
    text acquired is the texts of the pages in order, each followed by a
    newline; a page whose text is [None] or empty adds nothing. *)
Theorem extract_text_joins_pages (pdfplumber_open : str -> document)
    (file_path : str) (texts : list (option str)) :
  pdfplumber_open file_path = Returned (List.map Returned texts) ->
  extract_text_from_pdf pdfplumber_open file_path
  = Returned (List.concat (List.map page_line texts)).
Proof.
  intros H. unfold extract_text_from_pdf. rewrite H. simpl.
  now rewrite read_pages_closed.
Qed.

(** X2. [extract_text_from_pdf] raises exactly when [pdfplumber.open] or
    the reading of some page raises, and its message is then
    "Failed to extract text from PDF: " followed by the message of that
    failure. *)
Theorem extract_text_failure (pdfplumber_open : str -> document)
    (file_path : str) :
  (forall msg,
     extract_text_from_pdf pdfplumber_open file_path = Raised msg ->
     exists e,
       msg = py "Failed to extract text from PDF: " ++ e
       /\ (pdfplumber_open file_path = Raised e
           \/ exists pages, pdfplumber_open file_path = Returned pages
                            /\ List.In (Raised e) pages))
  /\ (forall e,
        pdfplumber_open file_path = Raised e
        \/ (exists pages, pdfplumber_open file_path = Returned pages
                          /\ List.In (Raised e) pages) ->
        exists msg,
          extract_text_from_pdf pdfplumber_open file_path = Raised msg).
Proof.
  unfold extract_text_from_pdf. split.
  - intros msg. destruct (pdfplumber_open file_path) as [pages|e0]; simpl.
    + destruct (read_pages pages []) as [text|e] eqn:Hr; simpl;
        [discriminate|].
      intros H. injection H as <-. exists e. split; [reflexivity|].
      right. exists pages. split; [reflexivity|].
      now apply read_pages_raised in Hr.
    + intros H. injection H as <-. exists e0. auto.
  - intros e [H | (pages & H & Hin)]; rewrite H; simpl; [eauto|].
    destruct (read_pages_raises pages e Hin []) as (e' & He').
    rewrite He'. simpl. eauto.
Qed.

(** X3. The vendor guess is never longer than 103 characters. *)
Theorem extract_vendor_length (text : str) :
  length (extract_vendor text) <= 103.
Proof.
  rewrite extract_vendor_eq. cbv zeta.
  destruct (100 <? length _) eqn:Hlt.
  - rewrite List.length_app, List.length_firstn.
    change (length (py "...")) with 3.
    pose proof (Nat.le_min_l 100 (length (strip (List.hd [] (split NEWLINE (strip text)))))).
    lia.
  - apply Nat.ltb_ge in Hlt. lia.
Qed.

(** X4. The vendor guess is one line without white space at its ends: it
    contains no newline, and neither its first nor its last character is a
    white space character. *)
Theorem extract_vendor_trimmed_line (text : str) :
  ~ List.In NEWLINE (extract_vendor text)
  /\ (forall c r, extract_vendor text = c :: r -> is_space c = false)
  /\ (forall c, last_error (extract_vendor text) = Some c ->
                is_space c = false).
Proof.
  rewrite extract_vendor_eq. cbv zeta.
  set (line := List.hd [] (split NEWLINE (strip text))).
  assert (Hline : ~ List.In NEWLINE (strip line)).
  { intros H. apply strip_incl in H. unfold line in H.
    pose proof (split_no_sep NEWLINE (strip text)) as Hall.
    destruct (split NEWLINE (strip text)) as [|first rest]; [exact H|].
    inversion Hall; subst. auto. }
  destruct (100 <? length (strip line)) eqn:Hlt.
  - apply Nat.ltb_lt in Hlt. split; [|split].
    + intros H. apply List.in_app_or in H. destruct H as [H | H].
      * apply Hline. revert H. apply firstn_incl.
      * simpl in H. unfold NEWLINE in H.
        repeat (destruct H as [H | H]; [discriminate H|]). exact H.
    + intros c r H. destruct (strip line) as [|a l] eqn:Hs;
        [simpl in Hlt; lia|].
      simpl in H. injection H as <- _. now apply strip_head in Hs.
    + intros c. unfold last_error. rewrite List.rev_app_distr. simpl.
      intros H. injection H as <-. reflexivity.
  - split; [exact Hline|]. split.
    + intros c r. apply strip_head.
    + intros c. apply strip_last.
Qed.

(** X5. The vendor guess is empty exactly when the text consists of white
    space only (the empty text included). *)
Theorem extract_vendor_empty_iff_blank (text : str) :
  extract_vendor text = [] <-> List.forallb is_space text = true.
Proof.
  split; [|apply extract_vendor_blank].
  destruct (List.forallb is_space text) eqn:Hb; [reflexivity|].
  intros Hv. exfalso. revert Hv. rewrite extract_vendor_eq. cbv zeta.
  destruct (strip_nonblank _ Hb) as (c & r & Hs & Hc). rewrite Hs.
  assert (Hnl : (c =? NEWLINE)%N = false).
  { destruct (c =? NEWLINE)%N eqn:E; [|reflexivity].
    apply N.eqb_eq in E. subst c. discriminate Hc. }
  destruct (split_cons_head _ _ r Hnl) as (piece & ->).
  unfold strip. rewrite (lstrip_fixed _ _ Hc), (rstrip_cons_nonspace _ _ Hc).
  destruct (100 <? _); discriminate.
Qed.

(** X6. White space (blank lines included) before and after the text does
    not change the vendor guess. *)
Theorem extract_vendor_ignores_margin (ws1 text ws2 : str) :
  List.forallb is_space ws1 = true -> List.forallb is_space ws2 = true ->
  extract_vendor (ws1 ++ text ++ ws2) = extract_vendor text.
Proof.
  intros H1 H2. unfold extract_vendor. now rewrite strip_surrounded.
Qed.

End MoreProperties.

Section RecordProperties.

Context {U : UnicodeDB}.

Import OCREngine.

Lemma shape_iso_length (tok : str) : shape_iso tok = true -> length tok = 10.
Proof.
  destruct tok as [|y1 [|y2 [|y3 [|y4 [|s1 [|m1 [|m2 [|s2 [|d1 [|d2 [|]]]]]]]]]]];
    simpl; intros H; try discriminate H; reflexivity.
Qed.

Lemma shape_dmy_length (tok : str) :
  shape_dmy tok = true -> 8 <= length tok <= 10.
Proof.
  destruct tok as [|d1 [|d2 [|s1 [|m1 [|m2 [|s2 y]]]]]]; try discriminate.
  unfold shape_dmy. rewrite !Bool.andb_true_iff.
  intros [[[_ Hlo] Hhi] _]. apply Nat.leb_le in Hlo, Hhi. simpl. lia.
Qed.

Lemma default_amount_shape : shape_amount (py "0.00").
Proof.
  exists (py "0"), [], (py "00"). repeat split; simpl; try lia;
    repeat constructor.
Qed.

(** X7. The amounts are returned in the order of the text, from
    non-overlapping places, so there are at most a quarter as many amounts
    as the text has characters. *)
Theorem extract_amounts_in_text_order (text : str) :
  in_order (extract_amounts text) text
  /\ 4 * length (extract_amounts text) <= length text.
Proof.
  assert (H : in_order (extract_amounts text) text)
    by apply findall_in_order.
  split; [exact H|]. revert H. apply in_order_count.
  eapply List.Forall_impl; [|apply extract_amounts_bounded].
  intros tok [Hshape _]. now apply shape_amount_length.
Qed.

(** X8. Each of the two passes of [extract_dates] returns its dates in the
    order of the text, from non-overlapping places; a date of the first
    pass has 10 characters and a date of the second pass 8 to 10. *)
Theorem extract_dates_passes_in_text_order (text : str) :
  in_order (findall date_iso text) text
  /\ in_order (findall date_dmy text) text
  /\ List.Forall (fun tok => length tok = 10) (findall date_iso text)
  /\ List.Forall (fun tok => 8 <= length tok <= 10) (findall date_dmy text).
Proof.
  repeat split; try apply findall_in_order.
  - eapply List.Forall_impl; [|apply findall_date_iso_shape].
    intros tok. apply shape_iso_length.
  - eapply List.Forall_impl; [|apply findall_date_dmy_shape].
    intros tok. apply shape_dmy_length.
Qed.

(** X9. When the text holds a date of shape (a), the invoice date is the
    first such date, also when a date of shape (b) stands before it in the
    text; when it holds none, the invoice date is the first date of shape
    (b), if any. *)
Theorem invoice_date_prefers_iso (text : str) :
  (findall date_iso text <> [] ->
   InvoiceParser.invoice_date (InvoiceParser.build text)
   = List.hd_error (findall date_iso text)
   /\ exists d, InvoiceParser.invoice_date (InvoiceParser.build text) = Some d
                /\ shape_iso d = true)
  /\ (findall date_iso text = [] ->
      InvoiceParser.invoice_date (InvoiceParser.build text)
      = List.hd_error (findall date_dmy text)).
Proof.
  rewrite invoice_date_eq, extract_dates_eq. split.
  - intros Hne. pose proof (findall_date_iso_shape text) as Hall.
    destruct (findall date_iso text) as [|d l]; [congruence|].
    inversion Hall; subst. simpl. eauto.
  - intros ->. reflexivity.
Qed.

(** X10. In an invoice result the date is absent exactly when no date was
    detected and is otherwise one of the detected dates; the total is one
    of the detected amounts, or "0.00" when none was detected; in both
    cases the total has the amount shape. *)
Theorem invoice_result_consistent (text : str) :
  let r := InvoiceParser.build text in
  (InvoiceParser.invoice_date r = None <-> InvoiceParser.detected_dates r = [])
  /\ (forall d, InvoiceParser.invoice_date r = Some d ->
                List.In d (InvoiceParser.detected_dates r))
  /\ (List.In (InvoiceParser.total_amount r) (InvoiceParser.detected_amounts r)
      \/ InvoiceParser.detected_amounts r = []
         /\ InvoiceParser.total_amount r = py "0.00")
  /\ shape_amount (InvoiceParser.total_amount r).
Proof.
  cbv zeta. unfold InvoiceParser.build.
  cbn [InvoiceParser.invoice_date InvoiceParser.detected_dates
       InvoiceParser.total_amount InvoiceParser.detected_amounts].
  rewrite first_or_none, last_or_default.
  split; [|split; [|split]].
  - destruct (extract_dates text); simpl; split; intros; congruence.
  - intros d H. destruct (extract_dates text) as [|d0 l]; simpl in H;
      [discriminate|].
    injection H as <-. now left.
  - destruct (extract_amounts text) as [|a l]; [right; auto|].
    left. apply last_in. discriminate.
  - pose proof (extract_amounts_bounded text) as Hall.
    destruct (extract_amounts text) as [|a l]; [apply default_amount_shape|].
    rewrite List.Forall_forall in Hall.
    apply (Hall (List.last (a :: l) (py "0.00"))).
    apply last_in. discriminate.
Qed.

Lemma confidence_values (d a : str) (l amounts : list str) :
  InvoiceParser._calculate_confidence [] [] = 0.5%float
  /\ InvoiceParser._calculate_confidence (d :: l) [] = 0.75%float
  /\ InvoiceParser._calculate_confidence [] (a :: amounts) = 0.75%float
  /\ InvoiceParser._calculate_confidence (d :: l) (a :: amounts) = 1.0%float.
Proof. repeat split. Qed.

(** Two different float constants are told apart by comparing them with a
    number between them. *)
Ltac float_discr H :=
  exfalso;
  first [ apply (f_equal (fun x => PrimFloat.ltb x 0.625%float)) in H;
          vm_compute in H; discriminate H
        | apply (f_equal (fun x => PrimFloat.ltb x 0.875%float)) in H;
          vm_compute in H; discriminate H ].

Ltac float_absurd :=
  match goal with H : @eq float _ _ |- _ => float_discr H end.

(** X11. The invoice confidence can be read off the result: it is 1.0
    exactly when a date and an amount were found, 0.5 exactly when neither
    was found, and 0.75 in the two remaining cases. *)
Theorem invoice_confidence_by_fields (text : str) :
  let r := InvoiceParser.build text in
  (InvoiceParser.confidence r = 1.0%float
   <-> InvoiceParser.invoice_date r <> None
       /\ InvoiceParser.detected_amounts r <> [])
  /\ (InvoiceParser.confidence r = 0.5%float
      <-> InvoiceParser.invoice_date r = None
          /\ InvoiceParser.detected_amounts r = [])
  /\ (InvoiceParser.confidence r = 1.0%float
      \/ InvoiceParser.confidence r = 0.75%float
      \/ InvoiceParser.confidence r = 0.5%float).
Proof.
  cbv zeta. unfold InvoiceParser.build.
  cbn [InvoiceParser.invoice_date InvoiceParser.detected_amounts
       InvoiceParser.confidence].
  rewrite first_or_none.
  destruct (extract_dates text) as [|d l],
           (extract_amounts text) as [|a amounts];
    cbn [List.hd_error].
  - destruct (confidence_values [] [] [] []) as (-> & _).
    intuition (try congruence; try discriminate; float_absurd).
  - destruct (confidence_values [] a [] amounts) as (_ & _ & -> & _).
    intuition (try congruence; try discriminate; float_absurd).
  - destruct (confidence_values d [] l []) as (_ & -> & _).
    intuition (try congruence; try discriminate; float_absurd).
  - destruct (confidence_values d a l amounts) as (_ & _ & _ & ->).
    intuition (try congruence; try discriminate; float_absurd).
Qed.

(** X12. The receipt confidence is 0.8 exactly when the purchase date is
    present and at least one item was detected; a receipt without detected
    items has the total "0.00", and the total always has the amount
    shape. *)
Theorem receipt_result_consistent (text : str) :
  let r := ReceiptParser.build text in
  (ReceiptParser.confidence r = 0x1.999999999999ap-1%float
   <-> ReceiptParser.purchase_date r <> None
       /\ 0 < ReceiptParser.items_detected r)
  /\ (ReceiptParser.items_detected r = 0 ->
      ReceiptParser.total r = py "0.00")
  /\ shape_amount (ReceiptParser.total r).
Proof.
  cbv zeta. unfold ReceiptParser.build.
  cbn [ReceiptParser.confidence ReceiptParser.purchase_date
       ReceiptParser.items_detected ReceiptParser.total].
  rewrite first_or_none, last_or_default.
  split; [|split].
  - destruct (extract_dates text) as [|d l],
             (extract_amounts text) as [|a amounts];
      cbn [truthy andb List.hd_error length];
      intuition (try congruence; try discriminate; try lia; float_absurd).
  - destruct (extract_amounts text); [reflexivity|discriminate].
  - pose proof (extract_amounts_bounded text) as Hall.
    destruct (extract_amounts text) as [|a l]; [apply default_amount_shape|].
    rewrite List.Forall_forall in Hall.
    apply (Hall (List.last (a :: l) (py "0.00"))).
    apply last_in. discriminate.
Qed.

End RecordProperties.

(** ** The analysis of app.py beside the parsers *)

Section AppProperties.

Context {U : UnicodeDB}.

Import OCREngine.

Lemma app_date_shape (text : str) :
  List.Forall (fun tok => shape_iso tok = true \/ shape_dmy tok = true)
              (findall App.date_pattern text).
Proof.
  apply List.Forall_forall. intros tok Hin.
  apply findall_sound in Hin. destruct Hin as (st & e & _ & [Hm | Hm] & Hs).
  - apply date_iso_shape in Hm. destruct Hm as (t & Hs' & Hshape).
    left. now rewrite (spans_inj _ _ _ _ Hs Hs').
  - apply date_dmy_shape in Hm. destruct Hm as (t & Hs' & Hshape).
    right. now rewrite (spans_inj _ _ _ _ Hs Hs').
Qed.

Lemma findall_has_match (r : regex) (text : str) :
  findall r text <> [] ->
  exists st e, text_of st = text /\ matches r st e.
Proof.
  destruct (findall r text) as [|tok l] eqn:Hf; [congruence|]. intros _.
  assert (Hin : List.In tok (findall r text)) by (rewrite Hf; now left).
  apply findall_sound in Hin. destruct Hin as (st & e & Ht & Hm & _). eauto.
Qed.

Lemma nil_or_not {A : Type} (l : list A) : l = [] \/ l <> [].
Proof. destruct l; [now left|right; discriminate]. Qed.

(** The single pattern of app.py finds a date exactly when the two patterns
    of the engine find one. *)
Lemma app_dates_empty_iff (text : str) :
  findall App.date_pattern text = [] <-> extract_dates text = [].
Proof.
  rewrite extract_dates_eq. split; intros H.
  - destruct (nil_or_not (findall date_iso text)) as [Hi | Hi];
      destruct (nil_or_not (findall date_dmy text)) as [Hd | Hd];
      try (rewrite Hi, Hd; reflexivity); exfalso.
    + apply findall_has_match in Hd. destruct Hd as (st & e & Ht & Hm).
      apply (findall_nonempty App.date_pattern st e); [now right|].
      now rewrite Ht.
    + apply findall_has_match in Hi. destruct Hi as (st & e & Ht & Hm).
      apply (findall_nonempty App.date_pattern st e); [now left|].
      now rewrite Ht.
    + apply findall_has_match in Hi. destruct Hi as (st & e & Ht & Hm).
      apply (findall_nonempty App.date_pattern st e); [now left|].
      now rewrite Ht.
  - apply List.app_eq_nil in H. destruct H as [Hi Hd].
    destruct (nil_or_not (findall App.date_pattern text)) as [Ha | Ha];
      [exact Ha|exfalso].
    apply findall_has_match in Ha. destruct Ha as (st & e & Ht & [Hm | Hm]).
    + apply (findall_nonempty date_iso st e Hm). now rewrite Ht.
    + apply (findall_nonempty date_dmy st e Hm). now rewrite Ht.
Qed.

(** X13. app.py and the invoice parser agree on the total amount of every
    text, and on whether it has a date: app.py reports "Not detected"
    exactly when the parser reports no invoice date. *)
Theorem app_agrees_with_invoice_parser (text : str) :
  App.total_amount (App.analyze_invoice_data text)
  = InvoiceParser.total_amount (InvoiceParser.build text)
  /\ (App.invoice_date (App.analyze_invoice_data text)
      = Some (py "Not detected")
      <-> InvoiceParser.invoice_date (InvoiceParser.build text) = None).
Proof.
  split; [reflexivity|].
  rewrite invoice_date_eq, app_invoice_date_eq.
  pose proof (app_dates_empty_iff text) as Hiff.
  pose proof (app_date_shape text) as Hshape.
  destruct (findall App.date_pattern text) as [|d l].
  - assert (He : extract_dates text = []) by (now apply Hiff).
    rewrite He. simpl. tauto.
  - destruct (extract_dates text) as [|d' l'].
    + destruct Hiff as [_ Hiff]. discriminate (Hiff eq_refl).
    + simpl. split; [|discriminate]. intros H. injection H as ->.
      inversion Hshape as [|? ? [Hd | Hd] _]; discriminate Hd.
Qed.

(** X14. The dates app.py finds in one pass have shape (a) or shape (b)
    and stand in the text from left to right without overlap, so the
    overlapping second reading of a date of shape (a) is not among them. *)
Theorem app_dates_in_text_order (text : str) :
  List.Forall (fun tok => shape_iso tok = true \/ shape_dmy tok = true)
              (findall App.date_pattern text)
  /\ in_order (findall App.date_pattern text) text
  /\ 8 * length (findall App.date_pattern text) <= length text.
Proof.
  split; [apply app_date_shape|].
  assert (H : in_order (findall App.date_pattern text) text)
    by apply findall_in_order.
  split; [exact H|]. revert H. apply in_order_count.
  eapply List.Forall_impl; [|apply app_date_shape].
  intros tok [Hs | Hs].
  - apply shape_iso_length in Hs. lia.
  - apply shape_dmy_length in Hs. lia.
Qed.

(** X15. On a text that is not empty the vendor of app.py is the text up
    to its first newline, as it stands: it is a prefix of the text without
    a newline in it, and the text ends there or goes on with a newline. *)
Theorem app_vendor_is_first_line (text : str) :
  text <> [] ->
  let v := App.vendor (App.analyze_invoice_data text) in
  ~ List.In NEWLINE v
  /\ exists rest, text = v ++ rest
                  /\ (rest = [] \/ exists r, rest = NEWLINE :: r).
Proof.
  intros Hne. cbv zeta. unfold App.analyze_invoice_data.
  cbn [App.vendor].
  destruct text as [|c s]; [congruence|]. cbn [truthy].
  pose proof (split_no_sep NEWLINE (c :: s)) as Hall.
  pose proof (split_join NEWLINE (c :: s)) as Hjoin.
  destruct (split NEWLINE (c :: s)) as [|first rest] eqn:Hs.
  - now apply split_nonempty in Hs.
  - inversion Hall; subst. split; [assumption|].
    eexists. split; [exact Hjoin|].
    destruct rest as [|line rest]; simpl; eauto.
Qed.

Lemma app_read_pages_closed (ts : list str) :
  forall acc,
    App.read_pages (List.map (fun t => Returned (Some t)) ts) acc
    = Returned (acc ++ List.concat (List.map (fun t => t ++ [NEWLINE]) ts)).
Proof.
  induction ts as [|t ts IH]; intros acc; simpl.
  - now rewrite List.app_nil_r.
  - rewrite IH. f_equal. now rewrite <- List.app_assoc.
Qed.

(** X16. When every page has a text, [extract_text_from_pdf] of app.py
    returns the page texts in order, each followed by a newline (an empty
    page text gives an empty line); when no page text is empty, the engine
    acquires the same text. *)
Theorem app_extract_text_joins_pages (pdfplumber_open : str -> document)
    (file : str) (ts : list str) :
  pdfplumber_open file
  = Returned (List.map (fun t => Returned (Some t)) ts) ->
  App.extract_text_from_pdf pdfplumber_open file
  = Returned (List.concat (List.map (fun t => t ++ [NEWLINE]) ts))
  /\ (List.Forall (fun t => t <> []) ts ->
      extract_text_from_pdf pdfplumber_open file
      = App.extract_text_from_pdf pdfplumber_open file).
Proof.
  intros H.
  assert (Happ : App.extract_text_from_pdf pdfplumber_open file
                 = Returned (List.concat
                               (List.map (fun t => t ++ [NEWLINE]) ts))).
  { unfold App.extract_text_from_pdf. rewrite H. simpl.
    now rewrite app_read_pages_closed. }
  split; [exact Happ|]. intros Hne. rewrite Happ.
  unfold extract_text_from_pdf. rewrite H. simpl.
  rewrite <- (List.map_map Some Returned), read_pages_closed. simpl.
  f_equal. f_equal. rewrite List.map_map.
  apply List.map_ext_in. intros t Hin.
  rewrite List.Forall_forall in Hne. apply Hne in Hin.
  destruct t; [congruence|reflexivity].
Qed.

(** X17. A page without text, for which [extract_text()] returns [None],
    makes [extract_text_from_pdf] of app.py raise the [TypeError] of
    [None + "\n"] when the pages before it have a text, whereas the
    engine skips that page. *)
Theorem app_extract_text_fails_on_textless_page
    (pdfplumber_open : str -> document) (file : str)
    (ts : list str) (pages : list page) :
  pdfplumber_open file
  = Returned (List.map (fun t => Returned (Some t)) ts
              ++ Returned None :: pages) ->
  App.extract_text_from_pdf pdfplumber_open file
  = Raised (py "unsupported operand type(s) for +: 'NoneType' and 'str'")
  /\ extract_text_from_pdf pdfplumber_open file
     = extract_text_from_pdf
         (fun _ => Returned (List.map (fun t => Returned (Some t)) ts
                             ++ pages)) file.
Proof.
  intros H. unfold App.extract_text_from_pdf, extract_text_from_pdf.
  rewrite H. clear H. simpl. split.
  - generalize (@nil char). induction ts as [|t ts IH]; intros acc; simpl;
      [reflexivity|apply IH].
  - f_equal. generalize (@nil char).
    induction ts as [|t ts IH]; intros acc; simpl; [reflexivity|apply IH].
Qed.

End AppProperties.

(** ** The endpoints of main.py *)

Section EndpointProperties.

Context {U : UnicodeDB}.

Variable mkstemp : Main.disk -> str.
Variable pdf_reader : option (list Byte.byte) -> OCREngine.document.
Variable uni_lower : str -> str.
Variable flushed : list Byte.byte -> list Byte.byte.

Import Main.

Lemma str_eqb_refl (s : str) : str_eqb s s = true.
Proof.
  induction s as [|c s IH]; simpl; [reflexivity|].
  now rewrite N.eqb_refl, IH.
Qed.

Lemma lookup_write (path : str) (c : list Byte.byte) (d : disk) :
  lookup path (write path c d) = Some c.
Proof. simpl. now rewrite str_eqb_refl. Qed.

Lemma unlink_absent (path : str) (d : disk) :
  lookup path d = None -> unlink path d = d.
Proof.
  induction d as [|[q c] d IH]; simpl; [reflexivity|].
  destruct (str_eqb q path); [discriminate|]. intros H. now rewrite IH.
Qed.

Lemma unlink_write (path : str) (c : list Byte.byte) (d : disk) :
  lookup path d = None -> unlink path (write path c d) = d.
Proof.
  intros H. simpl. rewrite str_eqb_refl, (unlink_absent _ _ H).
  exact (unlink_absent _ _ H).
Qed.

(** The text acquired does not depend on the path, only on what
    [pdfplumber] reads there. *)
Lemma extract_text_reads (open : str -> OCREngine.document) (path : str)
    (doc : OCREngine.document) :
  open path = doc ->
  OCREngine.extract_text_from_pdf open path
  = OCREngine.extract_text_from_pdf (fun _ => doc) [].
Proof.
  intros H. unfold OCREngine.extract_text_from_pdf. now rewrite H.
Qed.

Lemma startswith_app (prefix s : str) : startswith (prefix ++ s) prefix = true.
Proof.
  induction prefix as [|c prefix IH]; simpl; [now destruct s|].
  now rewrite N.eqb_refl, IH.
Qed.

Lemma extract_text_raised_prefix (open : str -> OCREngine.document)
    (path msg : str) :
  OCREngine.extract_text_from_pdf open path = Raised msg ->
  startswith msg (py "Failed to extract text from PDF: ") = true.
Proof.
  unfold OCREngine.extract_text_from_pdf, reraise.
  destruct (bind _ _); [discriminate|].
  intros H. injection H as <-.
  exact (startswith_app (py "Failed to extract text from PDF: ") _).
Qed.

(** The text of an upload, as the parsers acquire it from the temporary
    file. *)
Definition upload_text (c : list Byte.byte) : outcome str :=
  OCREngine.extract_text_from_pdf (fun _ => pdf_reader (Some c)) [].

Lemma extract_with_disk (parse : (str -> OCREngine.document) -> str -> outcome parsed)
    (d : disk) (file : UploadFile) :
  lookup (mkstemp d) d = None ->
  snd (extract_with mkstemp pdf_reader parse d file) = d.
Proof.
  intros Hfresh. unfold extract_with.
  destruct (negb _); [reflexivity|]. cbv zeta.
  destruct (parse _ _); cbn [snd].
  - now apply unlink_write.
  - unfold exists_. rewrite lookup_write. now apply unlink_write.
Qed.

(** X18. The two extraction endpoints refuse a file whose name does not
    end in ".pdf" with status 400 and touch nothing.  Otherwise they answer
    "success" with the record built from the text of the upload and its
    confidence, or, when the acquisition of the text raises, status 500
    with "Processing error: " followed by the message of the acquisition,
    which begins with "Failed to extract text from PDF: ". *)
Theorem extraction_endpoints_outcome (d : disk) (file : UploadFile) :
  let ri := fst (extract_invoice mkstemp pdf_reader d file) in
  let rr := fst (extract_receipt mkstemp pdf_reader d file) in
  if endswith (filename file) (py ".pdf")
  then match upload_text (content file) with
       | Returned text =>
           ri = Respond {| status := py "success";
                           data := Invoice (InvoiceParser.build text);
                           confidence :=
                             InvoiceParser.confidence (InvoiceParser.build text) |}
           /\ rr = Respond {| status := py "success";
                              data := Receipt (ReceiptParser.build text);
                              confidence :=
                                ReceiptParser.confidence (ReceiptParser.build text) |}
       | Raised msg =>
           ri = Abort {| status_code := 500;
                         detail := py "Processing error: " ++ msg |}
           /\ rr = ri
           /\ startswith msg (py "Failed to extract text from PDF: ") = true
       end
  else ri = Abort {| status_code := 400;
                     detail := py "Only PDF files are supported" |}
       /\ rr = ri
       /\ snd (extract_invoice mkstemp pdf_reader d file) = d
       /\ snd (extract_receipt mkstemp pdf_reader d file) = d.
Proof.
  cbv zeta. unfold extract_invoice, extract_receipt, extract_with.
  destruct (endswith (filename file) (py ".pdf")); cbn [negb];
    [|repeat split].
  unfold invoice_parser_parse, receipt_parser_parse,
    InvoiceParser.parse, ReceiptParser.parse, upload_text.
  rewrite (extract_text_reads
             (pdfplumber_open pdf_reader
                (write (mkstemp d) (content file) d))
             (mkstemp d) (pdf_reader (Some (content file))))
    by (unfold pdfplumber_open; now rewrite lookup_write).
  destruct (OCREngine.extract_text_from_pdf _ []) as [text|msg] eqn:Ht;
    cbn [bind fst]; repeat split.
  now apply extract_text_raised_prefix in Ht.
Qed.

(** X19. When the name of the temporary file is new, the two extraction
    endpoints leave the directory of temporary files as they found it,
    whether the parser returned or raised. *)
Theorem extraction_endpoints_clean_up (d : disk) (file : UploadFile) :
  lookup (mkstemp d) d = None ->
  snd (extract_invoice mkstemp pdf_reader d file) = d
  /\ snd (extract_receipt mkstemp pdf_reader d file) = d.
Proof. intros H. split; now apply extract_with_disk. Qed.

(** What a file gives in a batch when it is alone and no temporary file
    exists. *)
Definition entry_alone (file : UploadFile) : batch_entry :=
  fst (batch_step mkstemp pdf_reader uni_lower flushed [] file).

Lemma batch_step_entry (d : disk) (file : UploadFile) :
  fst (batch_step mkstemp pdf_reader uni_lower flushed d file)
  = entry_alone file.
Proof.
  unfold entry_alone, batch_step. cbv zeta.
  set (parse := if contains (py "invoice") (lower uni_lower (filename file))
                then invoice_parser_parse else receipt_parser_parse).
  assert (Hp : forall open path,
             open path = pdf_reader (Some (flushed (content file))) ->
             parse open path
             = parse (fun _ => pdf_reader (Some (flushed (content file)))) []).
  { intros open path Ho. unfold parse.
    destruct (contains _ _);
      unfold invoice_parser_parse, receipt_parser_parse,
        InvoiceParser.parse, ReceiptParser.parse;
      now rewrite (extract_text_reads _ _ _ Ho). }
  rewrite (Hp (pdfplumber_open pdf_reader (write (mkstemp d) _ d)))
    by (unfold pdfplumber_open; now rewrite lookup_write).
  rewrite (Hp (pdfplumber_open pdf_reader (write (mkstemp []) _ [])))
    by (unfold pdfplumber_open; now rewrite lookup_write).
  destruct (parse _ _); reflexivity.
Qed.

Lemma batch_loop_entries (files : list UploadFile) :
  forall d acc,
    fst (batch_loop mkstemp pdf_reader uni_lower flushed files d acc)
    = acc ++ List.map entry_alone files.
Proof.
  induction files as [|file files IH]; intros d acc; simpl.
  - now rewrite List.app_nil_r.
  - pose proof (batch_step_entry d file) as He.
    destruct (batch_step _ _ _ _ d file) as [entry d']. simpl in He.
    rewrite IH, <- List.app_assoc, He. reflexivity.
Qed.

(** X20. A batch of more than ten files is refused with status 400 and
    nothing is touched.  Any other batch is answered, a failing file
    included: [total] is the number of files and [results] has one entry
    for each file, in the order of the files, which is the entry the file
    gives when it is processed alone; so a file that fails does not change
    the entries of the others. *)
Theorem extract_batch_isolates_files (d : disk) (files : list UploadFile) :
  (10 < length files ->
   extract_batch mkstemp pdf_reader uni_lower flushed d files
   = (Abort {| status_code := 400;
               detail := py "Maximum 10 files per batch" |}, d))
  /\ (length files <= 10 ->
      fst (extract_batch mkstemp pdf_reader uni_lower flushed d files)
      = Respond {| results := List.map entry_alone files;
                   total := length files |}).
Proof.
  unfold extract_batch. split; intros Hlen.
  - apply Nat.ltb_lt in Hlen. now rewrite Hlen.
  - apply Nat.ltb_ge in Hlen. rewrite Hlen.
    pose proof (batch_loop_entries files d []) as He.
    destruct (batch_loop _ _ _ _ files d []) as [res d']. simpl in *.
    now rewrite He.
Qed.

(** The entries of a batch that report an error. *)
Definition errors (entries : list batch_entry) : list batch_entry :=
  List.filter (fun e => match entry_error e with
                        | Some _ => true
                        | None => false
                        end) entries.

Lemma batch_step_disk (d : disk) (file : UploadFile) :
  lookup (mkstemp d) d = None ->
  let (entry, d') := batch_step mkstemp pdf_reader uni_lower flushed d file in
  (entry_error entry = None /\ d' = d)
  \/ (entry_error entry <> None
      /\ d' = (mkstemp d, content file) :: d).
Proof.
  intros Hfresh. unfold batch_step. cbv zeta.
  destruct ((if contains _ _ then _ else _) _ _).
  - left. split; [reflexivity|]. now apply unlink_write.
  - right. split; [discriminate|]. unfold write.
    now rewrite unlink_absent.
Qed.

Lemma batch_loop_disk (Hfresh : forall d, lookup (mkstemp d) d = None)
    (files : list UploadFile) :
  forall d acc,
    let (res, d') :=
      batch_loop mkstemp pdf_reader uni_lower flushed files d acc in
    exists left_behind,
      d' = left_behind ++ d
      /\ length (errors res) = length (errors acc) + length left_behind.
Proof.
  induction files as [|file files IH]; intros d acc; simpl.
  - exists []. simpl. split; [reflexivity|lia].
  - pose proof (batch_step_disk d file (Hfresh d)) as Hs.
    destruct (batch_step _ _ _ _ d file) as [entry d1].
    specialize (IH d1 (acc ++ [entry])).
    destruct (batch_loop _ _ _ _ files d1 (acc ++ [entry])) as [res d'].
    destruct IH as (lb & -> & Hlen).
    unfold errors in *. rewrite List.filter_app, List.length_app in Hlen.
    simpl in Hlen.
    destruct Hs as [[He ->] | [He ->]].
    + exists lb. rewrite He in Hlen. simpl in Hlen. split; [reflexivity|lia].
    + exists (lb ++ [(mkstemp d, content file)]).
      rewrite <- List.app_assoc. split; [reflexivity|].
      rewrite List.length_app. simpl.
      destruct (entry_error entry); [simpl in Hlen; lia|congruence].
Qed.

(** X21. [extract_batch] removes the temporary file of a file only when
    its parser returned: when the names of the temporary files are new, a
    batch leaves every file that was there in place and leaves behind one
    temporary file for each entry that reports an error. *)
Theorem extract_batch_leaves_files_behind
    (Hfresh : forall d, lookup (mkstemp d) d = None)
    (d : disk) (files : list UploadFile) :
  length files <= 10 ->
  exists left_behind,
    snd (extract_batch mkstemp pdf_reader uni_lower flushed d files)
    = left_behind ++ d
    /\ length left_behind
       = length (errors (List.map entry_alone files)).
Proof.
  intros Hlen. unfold extract_batch. apply Nat.ltb_ge in Hlen. rewrite Hlen.
  pose proof (batch_loop_disk Hfresh files d []) as Hd.
  pose proof (batch_loop_entries files d []) as He.
  destruct (batch_loop _ _ _ _ files d []) as [res d'].
  destruct Hd as (lb & -> & Hn). simpl in *. subst res.
  exists lb. split; [reflexivity|lia].
Qed.

End EndpointProperties.

(** ** What the scans cannot miss *)

Section Completeness.

Context {U : UnicodeDB}.

Import OCREngine.

Lemma groups_intro (groups : list str) :
  List.Forall (fun g => digits g /\ length g = 3) groups ->
  forall cu e,
    spans cu (List.concat (List.map (cons COMMA) groups)) e ->
    iter (fun x y => matches (Chr COMMA @@ exactly 3 Dec) x y
                     /\ length (after y) < length (after x))
         (length groups) cu e.
Proof.
  induction 1 as [|g groups [Hg Hlen] _ IH]; intros cu e Hs;
    cbn [iter length List.concat List.map] in *.
  - destruct Hs as [Ha Hb]. destruct cu, e. simpl in *. now subst.
  - change ((COMMA :: g) ++ List.concat (List.map (cons COMMA) groups))
      with ([COMMA] ++ g ++ List.concat (List.map (cons COMMA) groups)) in Hs.
    apply spans_split in Hs. destruct Hs as (m1 & S1 & Hs).
    apply spans_split in Hs. destruct Hs as (m2 & S2 & S3).
    exists m2. split; [split|now apply IH].
    + exists m1. split; [now apply chr_intro|].
      apply rep_dec_intro with g; simpl; auto; lia.
    + apply spans_length in S1, S2. simpl in S1. lia.
Qed.

(** An amount that stands in the text between token boundaries is matched
    where it stands. *)
Lemma amount_matches_here (pre tok post : str) :
  shape_amount tok ->
  no_word (last_error pre) -> no_word (List.hd_error post) ->
  matches amount_pattern (Cursor (List.rev pre) (tok ++ post))
          (Cursor (List.rev tok ++ List.rev pre) post).
Proof.
  intros (lead & groups & frac & -> & Hlead & Hlen & Hgroups & Hfrac & Hflen)
         Hl Hr.
  pose proof (spans_here (List.rev pre)
                (lead ++ List.concat (List.map (cons COMMA) groups)
                      ++ DOT :: frac) post) as Hs.
  set (cu := Cursor (List.rev pre) _) in *.
  set (e := Cursor _ post) in *.
  apply spans_split in Hs. destruct Hs as (m1 & S1 & Hs).
  apply spans_split in Hs. destruct Hs as (m2 & S2 & Hs).
  change (DOT :: frac) with ([DOT] ++ frac) in Hs.
  apply spans_split in Hs. destruct Hs as (m3 & S3 & S4).
  exists cu. split.
  { split; [|reflexivity]. unfold at_boundary, cu. simpl.
    unfold no_word, last_error in Hl. rewrite Hl.
    destruct lead as [|l1 lead]; [simpl in Hlen; lia|].
    inversion Hlead; subst. simpl. now apply decimal_is_word. }
  exists m1. split; [apply rep_dec_intro with lead; simpl; auto; lia|].
  exists m2. split.
  { exists (length groups). repeat split; [lia|]. now apply groups_intro. }
  exists m3. split; [now apply chr_intro|].
  exists e. split; [apply rep_dec_intro with frac; simpl; auto; lia|].
  split; [|reflexivity]. unfold at_boundary, e. simpl.
  unfold no_word in Hr. rewrite Hr.
  destruct frac as [|f1 [|f2 [|]]]; try discriminate Hflen.
  inversion Hfrac as [|? ? _ Hf]; subst. inversion Hf as [|? ? Hf2 _]; subst.
  rewrite !List.rev_app_distr. simpl.
  rewrite (decimal_is_word _ Hf2). reflexivity.
Qed.

(** X22. A text that holds an amount of the amount shape between token
    boundaries yields at least one amount, so the total of the invoice is
    then one of the detected amounts and the confidence is at least 0.75. *)
Theorem amount_in_text_is_detected (pre tok post : str) :
  shape_amount tok ->
  no_word (last_error pre) -> no_word (List.hd_error post) ->
  let r := InvoiceParser.build (pre ++ tok ++ post) in
  extract_amounts (pre ++ tok ++ post) <> []
  /\ List.In (InvoiceParser.total_amount r) (InvoiceParser.detected_amounts r)
  /\ (0.75 <=? InvoiceParser.confidence r)%float = true.
Proof.
  intros Hshape Hl Hr. cbv zeta.
  assert (Hne : extract_amounts (pre ++ tok ++ post) <> []).
  { pose proof (amount_matches_here pre tok post Hshape Hl Hr) as Hm.
    apply findall_nonempty in Hm. unfold text_of in Hm. simpl in Hm.
    now rewrite List.rev_involutive in Hm. }
  split; [exact Hne|]. unfold InvoiceParser.build.
  cbn [InvoiceParser.total_amount InvoiceParser.detected_amounts
       InvoiceParser.confidence].
  rewrite last_or_default.
  destruct (extract_amounts (pre ++ tok ++ post)) as [|a l]; [congruence|].
  split; [apply last_in; discriminate|].
  destruct (extract_dates (pre ++ tok ++ post)); reflexivity.
Qed.

(** X23. A text that holds a string of shape (a) or of shape (b) anywhere
    yields at least one date: the invoice date and the purchase date are
    then present, and app.py reports a date too. *)
Theorem date_in_text_is_detected (pre tok post : str) :
  shape_iso tok = true \/ shape_dmy tok = true ->
  extract_dates (pre ++ tok ++ post) <> []
  /\ InvoiceParser.invoice_date (InvoiceParser.build (pre ++ tok ++ post))
     <> None
  /\ ReceiptParser.purchase_date (ReceiptParser.build (pre ++ tok ++ post))
     <> None
  /\ findall App.date_pattern (pre ++ tok ++ post) <> [].
Proof.
  intros Hshape.
  assert (Htext : text_of (Cursor (List.rev pre) (tok ++ post))
                  = pre ++ tok ++ post).
  { unfold text_of. simpl. now rewrite List.rev_involutive. }
  assert (Hne : extract_dates (pre ++ tok ++ post) <> []).
  { rewrite extract_dates_eq. intros H. apply List.app_eq_nil in H.
    destruct H as [Hi Hd]. destruct Hshape as [Hs | Hs].
    - apply (shape_iso_matches_here (List.rev pre) tok post) in Hs.
      apply findall_nonempty in Hs. now rewrite Htext in Hs.
    - apply (shape_dmy_matches_here (List.rev pre) tok post) in Hs.
      apply findall_nonempty in Hs. now rewrite Htext in Hs. }
  split; [exact Hne|].
  rewrite invoice_date_eq, purchase_date_eq.
  split; [|split].
  - destruct (extract_dates (pre ++ tok ++ post)); [congruence|discriminate].
  - destruct (extract_dates (pre ++ tok ++ post)); [congruence|discriminate].
  - intros H. now apply app_dates_empty_iff in H.
Qed.

End Completeness.

(** ** Further instances at concrete inputs *)

(** A name longer than every name in the directory. *)
Definition sample_mkstemp (d : Main.disk) : str :=
  List.repeat 116%N (S (List.list_sum (List.map (fun e => length (fst e)) d))).

(** A reader that finds two pages in every file that is not empty. *)
Definition sample_reader (o : option (list Byte.byte)) : OCREngine.document :=
  match o with
  | Some (_ :: _) =>
      Returned [Returned (Some (py "Acme")); Returned (Some (py "Total 7.00"))]
  | Some [] => Raised (py "No /Root object")
  | None => Raised (py "No such file")
  end.

Definition sample_files : list Main.UploadFile :=
  [ {| Main.filename := py "Invoice_1.pdf"; Main.content := [Byte.x25] |};
    {| Main.filename := py "scan.pdf"; Main.content := [] |};
    {| Main.filename := py "receipt.txt"; Main.content := [Byte.x25] |} ].

(** A document of three pages, the second without text. *)
Definition textless_page_source (path : str) : OCREngine.document :=
  Returned (List.map (fun t => Returned (Some t)) [py "Acme"]
            ++ Returned None :: [Returned (Some (py "Total 7.00"))]).

Definition two_page_source (path : str) : OCREngine.document :=
  Returned (List.map (fun t => Returned (Some t)) [py "Acme"; py "Total 7.00"]).

Lemma str_eqb_length (a b : str) :
  Main.str_eqb a b = true -> length a = length b.
Proof.
  revert b. induction a as [|x a IH]; intros [|y b]; simpl; try discriminate;
    [reflexivity|].
  intros H. apply andb_prop in H. destruct H as [_ H]. f_equal. auto.
Qed.

Lemma lookup_long_name (d : Main.disk) :
  forall n,
    List.list_sum (List.map (fun e => length (fst e)) d) < n ->
    Main.lookup (List.repeat 116%N n) d = None.
Proof.
  induction d as [|[q c] d IH]; intros n Hn; simpl in *; [reflexivity|].
  destruct (Main.str_eqb q (List.repeat 116%N n)) eqn:Heq.
  - apply str_eqb_length in Heq. rewrite List.repeat_length in Heq. lia.
  - apply IH. lia.
Qed.

Lemma sample_mkstemp_fresh (d : Main.disk) :
  Main.lookup (sample_mkstemp d) d = None.
Proof. apply lookup_long_name. lia. Qed.

Lemma extract_text_joins_pages_witness :
  OCREngine.extract_text_from_pdf good_source (py "a.pdf")
  = Returned (text_of_lines ["Acme"; "Total 7.00"]%string).
Proof.
  exact (@extract_text_joins_pages good_source (py "a.pdf")
           [Some (py "Acme"); None; Some (py "Total 7.00")] eq_refl).
Defined.

Lemma extract_text_failure_witness :
  exists e,
    py "Failed to extract text from PDF: bad page"
    = py "Failed to extract text from PDF: " ++ e
    /\ (broken_source (py "a.pdf") = Raised e
        \/ exists pages, broken_source (py "a.pdf") = Returned pages
                         /\ List.In (Raised e) pages).
Proof.
  exact (proj1 (@extract_text_failure broken_source (py "a.pdf")) _ eq_refl).
Defined.

Lemma extract_vendor_ignores_margin_witness :
  OCREngine.extract_vendor (U := sample_db)
    ([NEWLINE; 32%N; 160%N] ++ scenario_a ++ [32%N; NEWLINE])
  = OCREngine.extract_vendor (U := sample_db) scenario_a.
Proof.
  apply (@extract_vendor_ignores_margin sample_db); reflexivity.
Defined.

Lemma invoice_date_prefers_iso_witness :
  InvoiceParser.invoice_date
    (InvoiceParser.build (U := sample_db) (py "01/02/2003 2024-03-15"))
  = Some (py "2024-03-15").
Proof.
  destruct (@invoice_date_prefers_iso sample_db (py "01/02/2003 2024-03-15"))
    as [Hiso _].
  destruct Hiso as [H _]; [vm_compute; discriminate|].
  rewrite H. vm_compute. reflexivity.
Defined.

Lemma app_vendor_is_first_line_witness :
  ~ List.In NEWLINE
      (App.vendor (App.analyze_invoice_data (U := sample_db) scenario_a))
  /\ exists rest,
       scenario_a
       = App.vendor (App.analyze_invoice_data (U := sample_db) scenario_a)
         ++ rest
       /\ (rest = [] \/ exists r, rest = NEWLINE :: r).
Proof.
  apply (@app_vendor_is_first_line sample_db scenario_a). discriminate.
Defined.

Lemma app_extract_text_joins_pages_witness :
  App.extract_text_from_pdf two_page_source (py "a.pdf")
  = Returned (text_of_lines ["Acme"; "Total 7.00"]%string)
  /\ OCREngine.extract_text_from_pdf two_page_source (py "a.pdf")
     = App.extract_text_from_pdf two_page_source (py "a.pdf").
Proof.
  destruct (@app_extract_text_joins_pages two_page_source (py "a.pdf")
              [py "Acme"; py "Total 7.00"] eq_refl) as [H1 H2].
  split; [exact H1|]. apply H2. repeat constructor; discriminate.
Defined.

Lemma app_extract_text_fails_on_textless_page_witness :
  App.extract_text_from_pdf textless_page_source (py "a.pdf")
  = Raised (py "unsupported operand type(s) for +: 'NoneType' and 'str'")
  /\ OCREngine.extract_text_from_pdf textless_page_source (py "a.pdf")
     = Returned (text_of_lines ["Acme"; "Total 7.00"]%string).
Proof.
  destruct (@app_extract_text_fails_on_textless_page textless_page_source
              (py "a.pdf") [py "Acme"]
              [Returned (Some (py "Total 7.00"))] eq_refl) as [H1 H2].
  split; [exact H1|]. rewrite H2. reflexivity.
Defined.

Lemma extraction_endpoints_clean_up_witness :
  snd (Main.extract_invoice (U := sample_db) sample_mkstemp sample_reader
         [(py "tmp1.pdf", [Byte.x25])]
         {| Main.filename := py "scan.pdf"; Main.content := [] |})
  = [(py "tmp1.pdf", [Byte.x25])]
  /\ snd (Main.extract_receipt (U := sample_db) sample_mkstemp sample_reader
            [(py "tmp1.pdf", [Byte.x25])]
            {| Main.filename := py "scan.pdf"; Main.content := [] |})
     = [(py "tmp1.pdf", [Byte.x25])].
Proof.
  apply (@extraction_endpoints_clean_up sample_db sample_mkstemp sample_reader).
  apply sample_mkstemp_fresh.
Defined.

Lemma extract_batch_isolates_files_witness :
  List.map Main.entry_status
    (match fst (Main.extract_batch (U := sample_db) sample_mkstemp
                  sample_reader (fun s => s) (fun c => c) [] sample_files) with
     | Main.Respond r => Main.results r
     | Main.Abort _ => []
     end)
  = [py "success"; py "error"; py "success"].
Proof.
  rewrite (proj2 (@extract_batch_isolates_files sample_db sample_mkstemp
                    sample_reader (fun s => s) (fun c => c) [] sample_files));
    [|simpl; lia].
  vm_compute. reflexivity.
Defined.

Lemma extract_batch_leaves_files_behind_witness :
  exists left_behind,
    snd (Main.extract_batch (U := sample_db) sample_mkstemp sample_reader
           (fun s => s) (fun c => c) [] sample_files)
    = left_behind ++ []
    /\ length left_behind = 1.
Proof.
  apply (@extract_batch_leaves_files_behind sample_db sample_mkstemp
           sample_reader (fun s => s) (fun c => c) sample_mkstemp_fresh
           [] sample_files).
  simpl. lia.
Defined.

Lemma amount_in_text_is_detected_witness :
  OCREngine.extract_amounts (U := sample_db)
    (py "Total: " ++ py "1,200.50" ++ [NEWLINE]) <> []
  /\ (0.75 <=? InvoiceParser.confidence
                 (InvoiceParser.build (U := sample_db)
                    (py "Total: " ++ py "1,200.50" ++ [NEWLINE])))%float
     = true.
Proof.
  destruct (@amount_in_text_is_detected sample_db (py "Total: ")
              (py "1,200.50") [NEWLINE]) as (H1 & _ & H2).
  - exists (py "1"), [py "200"], (py "50").
    repeat split; try (simpl; lia); repeat constructor.
  - reflexivity.
  - reflexivity.
  - split; assumption.
Defined.

Lemma date_in_text_is_detected_witness :
  OCREngine.extract_dates (U := sample_db)
    (py "Due " ++ py "15/03/24" ++ py ".") <> []
  /\ InvoiceParser.invoice_date
       (InvoiceParser.build (U := sample_db)
          (py "Due " ++ py "15/03/24" ++ py ".")) <> None.
Proof.
  destruct (@date_in_text_is_detected sample_db (py "Due ") (py "15/03/24")
              (py ".")) as (H1 & H2 & _).
  - right. reflexivity.
  - split; assumption.
Defined.
